(** * docx2txt: a shallow embedding of [docx2txt.py] and its properties

    The development follows the source file top to bottom:
    - Python values: [str] as a list of characters, [bytes] as a list of
      bytes, exceptions as the [Raise] branch of [Result];
    - the library operations the source calls ([str.strip], [str.split],
      [re.match], [os.path.splitext], [os.path.basename], [os.path.join],
      [Element.iter], [ZipFile.namelist], [ZipFile.read]);
    - the functions of the source: [qn], [xml2text], [strip_list], [process];
    - the properties. *)

From Stdlib Require Import Ascii String ZArith Lia.
From Stdlib Require Import Init.Byte.
From stdpp Require Import base option list strings gmap.

Local Open Scope Z_scope.

(** ** Python values *)

(** A Python [str]: the sequence of its characters (code points below 256). *)
Abbreviation str := (list ascii).

(** A Python [bytes] object. *)
Abbreviation bytes := (list byte).

(** A string literal of the source. *)
Definition lit (s : string) : str := list_ascii_of_string s.
Arguments lit s%_string.

Definition nl : ascii := ascii_of_nat 10.
Definition tab : ascii := ascii_of_nat 9.

(** The exceptions the modelled code can raise. *)
Inductive Error : Type :=
  | KeyError      (* a missing dict key or archive entry *)
  | IndexError    (* list index out of range *)
  | ValueError    (* tuple unpacking of the wrong length; an encoding the parser refuses *)
  | ParseError    (* xml.etree.ElementTree.ParseError *)
  | OSError.      (* open() on a path that cannot be written *)

Inductive Result (A : Type) : Type :=
  | Ok (a : A)
  | Raise (e : Error).
Arguments Ok {A} a.
Arguments Raise {A} e.

#[global] Instance Result_ret : MRet Result := fun A a => Ok a.
#[global] Instance Result_bind : MBind Result := fun A B k m =>
  match m with
  | Ok a => k a
  | Raise e => Raise e
  end.
#[global] Instance Result_fmap : FMap Result := fun A B f m =>
  match m with
  | Ok a => Ok (f a)
  | Raise e => Raise e
  end.

(** A [for] loop whose body may raise: the state is threaded from left to
    right and the first exception ends the loop. *)
Fixpoint for_each {A St : Type} (body : St -> A -> Result St) (xs : list A) (s : St)
  : Result St :=
  match xs with
  | [] => Ok s
  | x :: xs' => s' ← body s x; for_each body xs' s'
  end.

(** A [for] loop on a state that stays as it is when the body raises: how
    the loop ended, and the state then. *)
Fixpoint for_each_io {A St : Type} (body : St -> A -> Result unit * St)
    (xs : list A) (s : St) : Result unit * St :=
  match xs with
  | [] => (Ok tt, s)
  | x :: xs' =>
      match body s x with
      | (Ok _, s') => for_each_io body xs' s'
      | (Raise e, s') => (Raise e, s')
      end
  end.

(** ** Library operations on [str] *)

Module Str.

(** [str.isspace] on one character: TAB, LF, VT, FF, CR, the separators
    FS, GS, RS, US, the space, NEL and the no-break space. *)
Definition isspace (c : ascii) : bool :=
  let n := Z.of_nat (nat_of_ascii c) in
  ((9 <=? n) && (n <=? 13)) || ((28 <=? n) && (n <=? 32))
  || (n =? 133) || (n =? 160).

Fixpoint lstrip (s : str) : str :=
  match s with
  | [] => []
  | c :: s' => if isspace c then lstrip s' else s
  end.

Definition rstrip (s : str) : str := reverse (lstrip (reverse s)).

(** [s.strip()] *)
Definition strip (s : str) : str := rstrip (lstrip s).

(** [s.split(sep)] for a one-character separator. *)
Fixpoint split (sep : ascii) (s : str) : list str :=
  match s with
  | [] => [[]]
  | c :: s' =>
      if decide (c = sep) then [] :: split sep s'
      else match split sep s' with
           | [] => [[c]]
           | w :: ws => (c :: w) :: ws
           end
  end.

(** [s.rfind(c)]: the highest index of [c] in [s], or [-1]. *)
Fixpoint rfind (c : ascii) (s : str) : Z :=
  match s with
  | [] => -1
  | d :: s' =>
      let r := rfind c s' in
      if 0 <=? r then r + 1
      else if decide (d = c) then 0 else -1
  end.

(** The slices [s[:i]], [s[i:]] and [s[i:j]] for indices that are not
    negative. *)
Definition upto (i : Z) (s : str) : str := take (Z.to_nat i) s.
Definition from (i : Z) (s : str) : str := drop (Z.to_nat i) s.
Definition slice (i j : Z) (s : str) : str := from i (upto j s).

(** [s.startswith(c)] and [s.endswith(c)] for a one-character [c]. *)
Definition startswith (c : ascii) (s : str) : bool :=
  match s with d :: _ => bool_decide (d = c) | [] => false end.
Definition endswith (c : ascii) (s : str) : bool :=
  match last s with Some d => bool_decide (d = c) | None => false end.

End Str.

(** ** The [re] module, for the patterns of the source *)

Module Re.

(** Regular expressions: the constructs the two patterns of [process]
    use (literal characters, a character range in brackets, the dot, the
    star, concatenation), closed under what derivatives need. *)
Inductive regex : Type :=
  | Void                          (* matches nothing *)
  | Eps                           (* matches the empty string *)
  | Chr (c : ascii)               (* the literal character c *)
  | Range (lo hi : ascii)         (* [lo-hi] *)
  | Dot                           (* . : any character but the newline *)
  | Cat (r1 r2 : regex)
  | Alt (r1 r2 : regex)
  | Star (r : regex).

(** The characters one-character expressions accept. *)
Definition in_range (lo hi c : ascii) : bool :=
  (nat_of_ascii lo <=? nat_of_ascii c)%nat && (nat_of_ascii c <=? nat_of_ascii hi)%nat.

Definition dot_accepts (c : ascii) : bool := negb (bool_decide (c = nl)).

(** The strings an expression matches from their first to their last
    character. *)
Inductive matches : regex -> str -> Prop :=
  | m_eps : matches Eps []
  | m_chr c : matches (Chr c) [c]
  | m_range lo hi c : in_range lo hi c = true -> matches (Range lo hi) [c]
  | m_dot c : dot_accepts c = true -> matches Dot [c]
  | m_cat r1 r2 s1 s2 : matches r1 s1 -> matches r2 s2 -> matches (Cat r1 r2) (s1 ++ s2)
  | m_alt_l r1 r2 s : matches r1 s -> matches (Alt r1 r2) s
  | m_alt_r r1 r2 s : matches r2 s -> matches (Alt r1 r2) s
  | m_star_nil r : matches (Star r) []
  | m_star_app r s1 s2 : matches r s1 -> matches (Star r) s2 -> matches (Star r) (s1 ++ s2).

Fixpoint nullable (r : regex) : bool :=
  match r with
  | Void | Chr _ | Range _ _ | Dot => false
  | Eps | Star _ => true
  | Cat r1 r2 => nullable r1 && nullable r2
  | Alt r1 r2 => nullable r1 || nullable r2
  end.

(** The derivative of [r] by the character [c]. *)
Fixpoint deriv (c : ascii) (r : regex) : regex :=
  match r with
  | Void | Eps => Void
  | Chr d => if decide (d = c) then Eps else Void
  | Range lo hi => if in_range lo hi c then Eps else Void
  | Dot => if dot_accepts c then Eps else Void
  | Cat r1 r2 =>
      if nullable r1 then Alt (Cat (deriv c r1) r2) (deriv c r2)
      else Cat (deriv c r1) r2
  | Alt r1 r2 => Alt (deriv c r1) (deriv c r2)
  | Star r1 => Cat (deriv c r1) (Star r1)
  end.

(** [re.match(pattern, s)] as a truth value: some prefix of [s], from its
    first character on, matches the pattern. *)
Fixpoint match_ (r : regex) (s : str) : bool :=
  nullable r ||
  match s with
  | [] => false
  | c :: s' => match_ (deriv c r) s'
  end.

(** The expression of a run of literal characters. *)
Fixpoint literal (s : str) : regex :=
  match s with
  | [] => Eps
  | c :: s' => Cat (Chr c) (literal s')
  end.

End Re.

(** ** [os.path] (posixpath) *)

Module Path.

(** The loop of [genericpath._splitext] that skips the leading dots of the
    file name: it answers whether a character other than the dot stands
    among [chars], the characters between the last separator and the last
    dot. *)
Fixpoint has_non_dot (chars : str) : bool :=
  match chars with
  | [] => false
  | c :: chars' => if decide (c = "."%char) then has_non_dot chars' else true
  end.

(** [os.path.splitext(p)] *)
Definition splitext (p : str) : str * str :=
  let sepIndex := Str.rfind "/" p in
  let dotIndex := Str.rfind "." p in
  if (sepIndex <? dotIndex)
     && has_non_dot (Str.slice (sepIndex + 1) dotIndex p)
  then (Str.upto dotIndex p, Str.from dotIndex p)
  else (p, []).

(** [os.path.basename(p)] *)
Definition basename (p : str) : str :=
  let i := Str.rfind "/" p + 1 in
  Str.from i p.

(** [os.path.join(a, b)] *)
Definition join (a b : str) : str :=
  if Str.startswith "/" b then b
  else if bool_decide (a = []) || Str.endswith "/" a then a ++ b
  else a ++ lit "/" ++ b.

End Path.

(** ** [zipfile.ZipFile] and the files on disk *)

(** An opened archive: its entries, name and content, in the order of the
    central directory. The content is the bytes [read] returns, so the
    archives here are those whose entries can all be read: none is
    encrypted, damaged or compressed by a method that is not supported. *)
Abbreviation ZipFile := (list (str * bytes)).

(** [zipf.namelist()] *)
Definition namelist (zipf : ZipFile) : list str := zipf.*1.

(** [zipf.read(name)]: the content of the entry of that name (of the last
    one, when several entries bear it); [KeyError] when there is none. *)
Fixpoint read (zipf : ZipFile) (name : str) : Result bytes :=
  match zipf with
  | [] => Raise KeyError
  | (n, data) :: zipf' =>
      match read zipf' name with
      | Ok data' => Ok data'
      | Raise _ => if decide (n = name) then Ok data else Raise KeyError
      end
  end.

(** The files on disk, by path. Whether [open(path, "wb")] succeeds (the
    directory of the path exists, the path is no directory, the permissions
    allow it) is given by a predicate [writable] on paths; [process] creates
    no directory and changes no permission, so the predicate is the same
    throughout a call. A call that raises leaves the files it has written
    until then. *)
Abbreviation FS := (gmap str bytes).

(** ** xml.etree.ElementTree *)

(** An [Element]: its tag in Clark notation, its attributes in document
    order (the insertion order of the [attrib] dict), the text before its
    first child, the text after its end tag, and its children. *)
#[local] Unset Elimination Schemes.
Inductive Element : Type :=
  Elem (tag : str) (attrib : list (str * str)) (text : option str)
       (tail : option str) (children : list Element).
#[local] Set Elimination Schemes.

Definition tag (e : Element) : str := let 'Elem t _ _ _ _ := e in t.
Definition attrib (e : Element) : list (str * str) := let 'Elem _ a _ _ _ := e in a.
Definition text (e : Element) : option str := let 'Elem _ _ x _ _ := e in x.
Definition tail (e : Element) : option str := let 'Elem _ _ _ x _ := e in x.
Definition children (e : Element) : list Element := let 'Elem _ _ _ _ cs := e in cs.

(** [root.iter()]: the element itself, then its descendants, in document
    (depth-first, pre-order) order. *)
Fixpoint iter (e : Element) : list Element :=
  match e with
  | Elem _ _ _ _ cs => e :: flat_map iter cs
  end.

(** ** The source: [nsmap] and [qn] *)

Definition nsmap : list (str * str) :=
  [ (lit "w", lit "http://schemas.openxmlformats.org/wordprocessingml/2006/main") ].

(** [d[k]] for a dict written as an association list. *)
Fixpoint dict_get (d : list (str * str)) (k : str) : Result str :=
  match d with
  | [] => Raise KeyError
  | (k', v) :: d' => if decide (k' = k) then Ok v else dict_get d' k
  end.

(** [qn(tag)]: [prefix, tagroot = tag.split(':')], then the URI of the
    prefix in braces followed by [tagroot]. *)
Definition qn (t : str) : Result str :=
  match Str.split ":" t with
  | [prefix; tagroot] =>
      uri ← dict_get nsmap prefix;
      Ok (lit "{" ++ uri ++ lit "}" ++ tagroot)
  | _ => Raise ValueError
  end.

(** ** The source: [xml2text] *)

(** The value [xml2text] and [process] return: a list of strings when
    [split_pages] holds and one string otherwise (the two overloads). *)
Definition Text (split_pages : bool) : Type :=
  if split_pages then list str else str.

(** [list(child.attrib.values())[0]] *)
Definition first_value (child : Element) : Result str :=
  match attrib child with
  | [] => Raise IndexError
  | (_, v) :: _ => Ok v
  end.

(** The test of the third branch,
    [split_pages and child.tag == qn('w:br') and
     list(child.attrib.values())[0] == "page"], with Python's short-circuit
    evaluation. *)
Definition is_page_break (split_pages : bool) (child : Element) : Result bool :=
  if split_pages then
    w_br ← qn (lit "w:br");
    if decide (tag child = w_br) then
      v ← first_value child;
      Ok (bool_decide (v = lit "page"))
    else Ok false
  else Ok false.

(** One turn of the loop [for child in root.iter()], on the pair
    [(texts, text)]. *)
Definition visit (split_pages : bool) (st : list str * str) (child : Element)
  : Result (list str * str) :=
  let '(texts, text_) := st in
  w_t ← qn (lit "w:t");
  if decide (tag child = w_t) then
    let t_text := text child in
    Ok (texts, text_ ++ match t_text with Some t => t | None => [] end)
  else
    w_tab ← qn (lit "w:tab");
    if decide (tag child = w_tab) then Ok (texts, text_ ++ [tab])
    else
      page ← is_page_break split_pages child;
      if page : bool then Ok (texts ++ [text_], [])
      else
        w_br ← qn (lit "w:br");
        w_cr ← qn (lit "w:cr");
        if decide (tag child = w_br \/ tag child = w_cr) then Ok (texts, text_ ++ [nl])
        else
          w_p ← qn (lit "w:p");
          if decide (tag child = w_p) then Ok (texts, text_ ++ [nl; nl])
          else Ok (texts, text_).

(** The loop of [xml2text] over a parsed tree. *)
Definition walk (split_pages : bool) (root : Element) : Result (list str * str) :=
  for_each (visit split_pages) (iter root) ([], []).

(** [return texts if split_pages else text] *)
Definition result_of (split_pages : bool) (st : list str * str) : Text split_pages :=
  match split_pages return Text split_pages with
  | true => fst st
  | false => snd st
  end.

(** [xml2text] after [ET.fromstring]. *)
Definition xml2text_tree (root : Element) (split_pages : bool)
  : Result (Text split_pages) :=
  st ← walk split_pages root;
  Ok (result_of split_pages st).

(** ** The source: [strip_list] *)

(** [while lst and not lst[-1]: lst.pop()]; each turn shortens the list, so
    [fuel] turns are enough when [fuel] is its length. *)
Fixpoint pop_trailing (fuel : nat) (lst : list str) : list str :=
  match fuel with
  | O => lst
  | S fuel' =>
      match last lst with
      | Some x => if bool_decide (x = []) then pop_trailing fuel' (removelast lst) else lst
      | None => lst
      end
  end.

(** [while lst and not lst[0]: lst.pop(0)] *)
Fixpoint pop_leading (lst : list str) : list str :=
  match lst with
  | [] => []
  | x :: lst' => if bool_decide (x = []) then pop_leading lst' else lst
  end.

Definition strip_list (lst : list str) : list str :=
  pop_leading (pop_trailing (length lst) lst).

(** ** The source: [process] *)

(** The patterns ['word/header[0-9]*.xml'] and ['word/footer[0-9]*.xml']. *)
Definition part_pattern (prefix : str) : Re.regex :=
  Re.Cat (Re.literal prefix)
    (Re.Cat (Re.Star (Re.Range "0" "9"))
       (Re.Cat Re.Dot (Re.literal (lit "xml")))).

Definition header_xmls : Re.regex := part_pattern (lit "word/header").
Definition footer_xmls : Re.regex := part_pattern (lit "word/footer").
Definition doc_xml : str := lit "word/document.xml".

(** The extensions of the entries that are written out as images. *)
Definition image_extensions : list str :=
  [lit ".jpg"; lit ".jpeg"; lit ".png"; lit ".bmp"].

(** [text: Union[list[str], str] = [] if split_pages else ""] *)
Definition empty_text (split_pages : bool) : Text split_pages :=
  match split_pages return Text split_pages with
  | true => []
  | false => []
  end.

(** [text.extend(part)] when [split_pages] holds, [text += part] otherwise. *)
Definition fold_in (split_pages : bool) : Text split_pages -> Text split_pages -> Text split_pages :=
  match split_pages return Text split_pages -> Text split_pages -> Text split_pages with
  | true => fun text_ part => text_ ++ part
  | false => fun text_ part => text_ ++ part
  end.

(** The last line of [process]:
    [[t.strip() for t in strip_list(text)] if split_pages else text.strip()]. *)
Definition finish (split_pages : bool) : Text split_pages -> Text split_pages :=
  match split_pages return Text split_pages -> Text split_pages with
  | true => fun text_ => Str.strip <$> strip_list text_
  | false => fun text_ => Str.strip text_
  end.

(** The body of the image loop for one entry name:
    [with open(dst_fname, "wb") as dst_f: dst_f.write(zipf.read(fname))].
    [open] raises [OSError] on a path that cannot be written, and
    otherwise creates the file or empties it before the entry is read. *)
Definition extract_image (writable : str -> bool) (zipf : ZipFile) (img_dir : str)
    (fs : FS) (fname : str) : Result unit * FS :=
  let '(_, extension) := Path.splitext fname in
  if bool_decide (extension ∈ image_extensions) then
    let dst_fname := Path.join img_dir (Path.basename fname) in
    if writable dst_fname then
      match read zipf fname with
      | Ok data => (Ok tt, <[dst_fname := data]> fs)
      | Raise e => (Raise e, <[dst_fname := []]> fs)
      end
    else (Raise OSError, fs)
  else (Ok tt, fs).

(** [if img_dir is not None: for fname in filelist: ...] *)
Definition extract_images (writable : str -> bool) (zipf : ZipFile)
    (img_dir : option str) (fs : FS) : Result unit * FS :=
  match img_dir with
  | Some d => for_each_io (extract_image writable zipf d) (namelist zipf) fs
  | None => (Ok tt, fs)
  end.

Section Parser.

(** [ET.fromstring]: the XML parser of the standard library, which returns
    the root element or raises: [ParseError] on bytes that are not
    well-formed XML, and what else the parser raises ([ValueError] on an
    encoding declaration it does not support). *)
Variable fromstring : bytes -> Result Element.

(** The paths at which [open(path, "wb")] succeeds. *)
Variable writable : str -> bool.

Definition xml2text (xml : bytes) (split_pages : bool)
  : Result (Text split_pages) :=
  root ← fromstring xml;
  xml2text_tree root split_pages.

(** [text.extend(xml2text(zipf.read(fname), split_pages))], respectively
    [text += xml2text(zipf.read(fname), split_pages)]. *)
Definition add_part (zipf : ZipFile) (split_pages : bool)
    (text_ : Text split_pages) (fname : str) : Result (Text split_pages) :=
  xml ← read zipf fname;
  part ← xml2text xml split_pages;
  Ok (fold_in split_pages text_ part).

(** [for fname in filelist: if re.match(pattern, fname): ...] *)
Definition add_matching (pattern : Re.regex) (zipf : ZipFile) (split_pages : bool)
    (text_ : Text split_pages) : Result (Text split_pages) :=
  for_each
    (fun text_ fname =>
       if Re.match_ pattern fname then add_part zipf split_pages text_ fname
       else Ok text_)
    (namelist zipf) text_.

(** The text of [process] before the last line: the headers, the main
    document and the footers, folded into [text]. *)
Definition assemble (zipf : ZipFile) (split_pages : bool) : Result (Text split_pages) :=
  let text_ := empty_text split_pages in
  (* get header text *)
  text_ ← add_matching header_xmls zipf split_pages text_;
  (* get main text *)
  text_ ← add_part zipf split_pages text_ doc_xml;
  (* get footer text *)
  add_matching footer_xmls zipf split_pages text_.

(** [process(docx, split_pages, img_dir)] on the opened archive: the value
    returned or the exception raised, and the files on disk afterwards. *)
Definition process (zipf : ZipFile) (split_pages : bool) (img_dir : option str)
    (fs : FS) : Result (Text split_pages) * FS :=
  match assemble zipf split_pages with
  | Ok text_ =>
      (* extract images *)
      match extract_images writable zipf img_dir fs with
      | (Ok _, fs') => (Ok (finish split_pages text_), fs')
      | (Raise e, fs') => (Raise e, fs')
      end
  | Raise e => (Raise e, fs)
  end.

End Parser.

(** ** The source: [process_args] and the script *)

Module Cli.

(** The namespace [parser.parse_args()] returns: the positional [docx] and
    the options [-s] and [-i], each with the string given for it or
    [None]. *)
Record Args : Type := { docx : str; split_pages : option str; img_dir : option str }.

(** Exceptions nothing in the script catches. *)
Inductive Exception : Type :=
  | FromProcess (e : Error)   (* raised inside process *)
  | BadZipFile                (* zipfile.ZipFile(docx) on a file that is no archive *)
  | AttributeError            (* a value without the attribute asked for *)
  | TypeError.                (* sys.stdout.write on a value that is no str *)

(** How a run ends: the function returns, [sys.exit(status)] is called, or
    an exception is not caught. *)
Inductive Outcome (A : Type) : Type :=
  | Returned (a : A)
  | Exited (status : Z)
  | Uncaught (exc : Exception).
Arguments Returned {A} a.
Arguments Exited {A} status.
Arguments Uncaught {A} exc.

(** What the script acts on: the paths that exist, the content of the
    files it writes, and the lines and strings sent to standard output. *)
Record World : Type := { paths : gset str; files : FS; stdout : list str }.

(** [os.path.exists(p)] *)
Definition exists_ (w : World) (p : str) : bool := bool_decide (p ∈ paths w).

(** [print(line)] *)
Definition print (w : World) (line : str) : World :=
  {| paths := paths w; files := files w; stdout := stdout w ++ [line ++ [nl]] |}.

(** A Python value the last line of the script handles. *)
Inductive Value : Type :=
  | VStr (s : str)
  | VList (l : list str)
  | VBytes (b : bytes).

(** The value [process] returns, as a Python value. *)
Definition value_of (split : bool) : Text split -> Value :=
  match split return Text split -> Value with
  | true => fun l => VList l
  | false => fun s => VStr s
  end.

(** The truth value of the [split_pages] argument, an optional string. *)
Definition truthy (o : option str) : bool :=
  match o with
  | Some (_ :: _) => true
  | Some [] | None => false
  end.

(** The UTF-8 encoding of a character (a code point below 256). *)
Definition utf8_char (c : ascii) : bytes :=
  let n := N_of_ascii c in
  if (n <? 128)%N then [byte_of_ascii c]
  else match Byte.of_N (192 + N.shiftr n 6), Byte.of_N (128 + N.land n 63) with
       | Some b1, Some b2 => [b1; b2]
       | _, _ => []
       end.

(** [value.encode('utf-8')]: only a [str] has the method. *)
Definition encode (v : Value) : Value + Exception :=
  match v with
  | VStr s => inl (VBytes (concat (utf8_char <$> s)))
  | VList _ | VBytes _ => inr AttributeError
  end.

(** [sys.stdout.write(value)] on the text stream: a [str] is written,
    anything else raises [TypeError]. *)
Definition stdout_write (w : World) (v : Value) : World + Exception :=
  match v with
  | VStr s => inl {| paths := paths w; files := files w; stdout := stdout w ++ [s] |}
  | VList _ | VBytes _ => inr TypeError
  end.

Section Script.

(** [os.makedirs(path)] on the existing paths: the paths afterwards, and
    whether it returned ([true]) or raised [OSError] ([false]); it creates
    the missing parent directories first, which stay when it raises. *)
Variable makedirs : gset str -> str -> gset str * bool.

(** [zipfile.ZipFile(docx)]: the archive in the file of that path, or
    [None] when the file is not an archive. *)
Variable open_zip : str -> option ZipFile.

Variable fromstring : bytes -> Result Element.

Variable writable : str -> bool.

(** [process_args()] after [parser.parse_args()] has returned [args]. *)
Definition process_args (args : Args) (w : World) : Outcome Args * World :=
  if negb (exists_ w (docx args)) then
    (Exited 1, print w (lit "File " ++ docx args ++ lit " does not exist."))
  else
    match img_dir args with
    | Some d =>
        if negb (exists_ w d) then
          match makedirs (paths w) d with
          | (paths', true) =>
              (Returned args, {| paths := paths'; files := files w; stdout := stdout w |})
          | (paths', false) =>
              (Exited 1,
               print {| paths := paths'; files := files w; stdout := stdout w |}
                 (lit "Unable to create img_dir " ++ d))
          end
        else (Returned args, w)
    | None => (Returned args, w)
    end.

(** The body of [if __name__ == '__main__':]. *)
Definition main (args : Args) (w : World) : Outcome unit * World :=
  match process_args args w with
  | (Returned args, w) =>
      match open_zip (docx args) with
      | None => (Uncaught BadZipFile, w)
      | Some zipf =>
          match process fromstring writable zipf (truthy (split_pages args))
                  (img_dir args) (files w) with
          | (Raise e, fs') =>
              (Uncaught (FromProcess e),
               {| paths := paths w; files := fs'; stdout := stdout w |})
          | (Ok text_, fs') =>
              let w := {| paths := paths w; files := fs'; stdout := stdout w |} in
              match encode (value_of (truthy (split_pages args)) text_) with
              | inr exc => (Uncaught exc, w)
              | inl encoded =>
                  match stdout_write w encoded with
                  | inr exc => (Uncaught exc, w)
                  | inl w => (Returned tt, w)
                  end
              end
          end
      end
  | (Exited status, w) => (Exited status, w)
  | (Uncaught exc, w) => (Uncaught exc, w)
  end.

End Script.

End Cli.

(** * Vocabulary of the properties *)

(** ** The tags [xml2text] tests for *)

(** The Clark notation of the tag [w:local]. *)
Definition W (local : string) : str :=
  lit "{http://schemas.openxmlformats.org/wordprocessingml/2006/main}" ++ lit local.

(** What an element adds to the accumulated text when it is not taken as a
    page break. *)
Definition contribution (child : Element) : str :=
  if decide (tag child = W "t") then default [] (text child)
  else if decide (tag child = W "tab") then [tab]
  else if decide (tag child = W "br" \/ tag child = W "cr") then [nl]
  else if decide (tag child = W "p") then [nl; nl]
  else [].

(** A break element the split mode takes as a page break: a [w:br] whose
    first attribute has the value [page]. *)
Definition page_break (child : Element) : bool :=
  bool_decide (tag child = W "br") &&
  match attrib child with
  | (_, v) :: _ => bool_decide (v = lit "page")
  | [] => false
  end.

(** A [w:br] element without any attribute. *)
Definition bare_break (child : Element) : bool :=
  bool_decide (tag child = W "br") && bool_decide (attrib child = []).

(** One turn of the split-mode loop when it does not raise. *)
Definition split_step (st : list str * str) (child : Element) : list str * str :=
  if page_break child then (st.1 ++ [st.2], [])
  else (st.1, st.2 ++ contribution child).

(** The number of page breaks of a tree. *)
Definition page_breaks (root : Element) : nat :=
  length (List.filter page_break (iter root)).

(** The text of a sequence of paragraphs before trimming: each one after
    its two newlines. *)
Definition paragraphs_text (ps : list str) : str :=
  concat ((fun p => [nl; nl] ++ p) <$> ps).

(** ** Documents for the examples *)

Definition w_document (cs : list Element) : Element := Elem (W "document") [] None None cs.
Definition w_body (cs : list Element) : Element := Elem (W "body") [] None None cs.
Definition w_hdr (cs : list Element) : Element := Elem (W "hdr") [] None None cs.
Definition w_ftr (cs : list Element) : Element := Elem (W "ftr") [] None None cs.
Definition w_p (cs : list Element) : Element := Elem (W "p") [] None None cs.
Definition w_r (cs : list Element) : Element := Elem (W "r") [] None None cs.
Definition w_t (s : str) : Element := Elem (W "t") [] (Some s) None [].
Definition w_br (attrs : list (str * str)) : Element := Elem (W "br") attrs None None [].

(** A paragraph of one run of text. *)
Definition paragraph (s : str) : Element := w_p [w_r [w_t s]].

(** [<w:document><w:body><w:p><w:r><w:t>Hello</w:t></w:r></w:p></w:body></w:document>] *)
Definition hello_doc : Element := w_document [w_body [paragraph (lit "Hello")]].

(** A run with a line break without attributes:
    [<w:document><w:body><w:p><w:r><w:t>a</w:t><w:br/><w:t>b</w:t></w:r></w:p></w:body></w:document>] *)
Definition line_break_doc : Element :=
  w_document [w_body [w_p [w_r [w_t (lit "a"); w_br []; w_t (lit "b")]]]].

(** Text, a page break, and text after it:
    [<w:document><w:body><w:p><w:r><w:t>A</w:t><w:br w:type='page'/><w:t>B</w:t></w:r></w:p></w:body></w:document>] *)
Definition two_page_doc : Element :=
  w_document [w_body [w_p [w_r [w_t (lit "A"); w_br [(W "type", lit "page")]; w_t (lit "B")]]]].

(** A blank first page, then a page of text:
    [<w:document><w:body><w:p><w:r><w:br w:type='page'/></w:r></w:p>
     <w:p><w:r><w:t>B</w:t><w:br w:type='page'/></w:r></w:p></w:body></w:document>] *)
Definition blank_first_page_doc : Element :=
  w_document [w_body [w_p [w_r [w_br [(W "type", lit "page")]]];
                      w_p [w_r [w_t (lit "B"); w_br [(W "type", lit "page")]]]]].

(** A header, a body and a footer of one paragraph each. *)
Definition header_H1 : Element := w_hdr [paragraph (lit "H1")].
Definition document_BODY : Element := w_document [w_body [paragraph (lit "BODY")]].
Definition footer_F1 : Element := w_ftr [paragraph (lit "F1")].

(** ** The parts of a document and their order *)

(** A list of computations run from left to right; the first exception
    ends the run. *)
Fixpoint map_result {A B : Type} (f : A -> Result B) (xs : list A) : Result (list B) :=
  match xs with
  | [] => Ok []
  | x :: xs' => y ← f x; ys ← map_result f xs'; Ok (y :: ys)
  end.

(** The concatenation of the texts of several parts: of strings, or of
    lists of segments. *)
Definition flatten (split_pages : bool) : list (Text split_pages) -> Text split_pages :=
  match split_pages return list (Text split_pages) -> Text split_pages with
  | true => fun parts => concat parts
  | false => fun parts => concat parts
  end.

(** The names of the parts that contribute text, in the order their texts
    are assembled: headers, main document, footers. *)
Definition part_names (zipf : ZipFile) : list str :=
  List.filter (Re.match_ header_xmls) (namelist zipf)
  ++ [doc_xml]
  ++ List.filter (Re.match_ footer_xmls) (namelist zipf).

(** The text of the part of a given name. *)
Definition part_text (fromstring : bytes -> Result Element) (zipf : ZipFile)
    (split_pages : bool) (fname : str) : Result (Text split_pages) :=
  xml ← read zipf fname; xml2text fromstring xml split_pages.

(** ** Images *)

(** The entry name has one of the image extensions. *)
Definition is_image (fname : str) : bool :=
  bool_decide ((Path.splitext fname).2 ∈ image_extensions).

(** The path an image entry is written to. *)
Definition dst_of (img_dir fname : str) : str :=
  Path.join img_dir (Path.basename fname).

(** The entry names the image loop handles before it raises: those before
    the first image whose path cannot be written. *)
Fixpoint opened (writable : str -> bool) (img_dir : str) (names : list str) : list str :=
  match names with
  | [] => []
  | fname :: names' =>
      if negb (is_image fname) || writable (dst_of img_dir fname)
      then fname :: opened writable img_dir names'
      else []
  end.

(** The image loop finds every path it opens writable. *)
Definition can_write (writable : str -> bool) (img_dir : str) (names : list str) : bool :=
  forallb (fun fname => negb (is_image fname) || writable (dst_of img_dir fname)) names.

(** The files after the image loop has handled the entry name [fname], when
    its path, if it is an image, can be written. *)
Definition store (zipf : ZipFile) (img_dir : str) (fs : FS) (fname : str) : FS :=
  if is_image fname then
    match read zipf fname with
    | Ok data => <[dst_of img_dir fname := data]> fs
    | Raise _ => fs
    end
  else fs.

(** ** Trimmed strings and stripped lists *)

(** A string with no whitespace at either end. *)
Definition trimmed (s : str) : Prop :=
  (forall c, head s = Some c -> Str.isspace c = false)
  /\ (forall c, last s = Some c -> Str.isspace c = false).

(** A list of segments with no empty segment at either end. *)
Definition no_empty_ends (lst : list str) : Prop :=
  (forall x, head lst = Some x -> x <> [])
  /\ (forall x, last lst = Some x -> x <> []).

(** A string of whitespace only. *)
Definition blank (s : str) : Prop := Forall (fun c => Str.isspace c = true) s.

(** ** Entry names *)

(** One of the characters 0 to 9. *)
Definition digit (c : ascii) : Prop := Re.in_range "0" "9" c = true.

(** The shape of a header or footer entry name: the prefix, digits or
    none, a dot, [xml], and nothing after. *)
Definition part_name (prefix : str) (s : str) : Prop :=
  exists ds, s = prefix ++ ds ++ lit ".xml" /\ Forall digit ds.

(** ** Archives for the examples *)

#[global] Instance byte_eq_decision : EqDecision byte := Byte.byte_eq_dec.

(** The bytes of an XML text. *)
Definition xml_of (s : string) : bytes := list_byte_of_string s.
Arguments xml_of s%_string.

Definition hello_xml : bytes :=
  xml_of "<w:document xmlns:w='http://schemas.openxmlformats.org/wordprocessingml/2006/main'><w:body><w:p><w:r><w:t>Hello</w:t></w:r></w:p></w:body></w:document>".

Definition line_break_xml : bytes :=
  xml_of "<w:document xmlns:w='http://schemas.openxmlformats.org/wordprocessingml/2006/main'><w:body><w:p><w:r><w:t>a</w:t><w:br/><w:t>b</w:t></w:r></w:p></w:body></w:document>".

Definition two_page_xml : bytes :=
  xml_of "<w:document xmlns:w='http://schemas.openxmlformats.org/wordprocessingml/2006/main'><w:body><w:p><w:r><w:t>A</w:t><w:br w:type='page'/><w:t>B</w:t></w:r></w:p></w:body></w:document>".

Definition blank_first_page_xml : bytes :=
  xml_of "<w:document xmlns:w='http://schemas.openxmlformats.org/wordprocessingml/2006/main'><w:body><w:p><w:r><w:br w:type='page'/></w:r></w:p><w:p><w:r><w:t>B</w:t><w:br w:type='page'/></w:r></w:p></w:body></w:document>".

Definition header_xml : bytes :=
  xml_of "<w:hdr xmlns:w='http://schemas.openxmlformats.org/wordprocessingml/2006/main'><w:p><w:r><w:t>H1</w:t></w:r></w:p></w:hdr>".

Definition body_xml : bytes :=
  xml_of "<w:document xmlns:w='http://schemas.openxmlformats.org/wordprocessingml/2006/main'><w:body><w:p><w:r><w:t>BODY</w:t></w:r></w:p></w:body></w:document>".

Definition footer_xml : bytes :=
  xml_of "<w:ftr xmlns:w='http://schemas.openxmlformats.org/wordprocessingml/2006/main'><w:p><w:r><w:t>F1</w:t></w:r></w:p></w:ftr>".

(** The trees [ET.fromstring] builds from the texts above. *)
Definition example_trees : list (bytes * Element) :=
  [ (hello_xml, hello_doc); (line_break_xml, line_break_doc);
    (two_page_xml, two_page_doc); (blank_first_page_xml, blank_first_page_doc);
    (header_xml, header_H1); (body_xml, document_BODY); (footer_xml, footer_F1) ].

Fixpoint tree_of (trees : list (bytes * Element)) (xml : bytes) : Result Element :=
  match trees with
  | [] => Raise ParseError
  | (x, root) :: trees' => if decide (x = xml) then Ok root else tree_of trees' xml
  end.

(** [ET.fromstring] on the texts of the examples. *)
Definition example_fromstring (xml : bytes) : Result Element :=
  tree_of example_trees xml.

(** Every path can be written. *)
Definition all_writable (p : str) : bool := true.

(** The first bytes of an image. *)
Definition image_bytes : bytes := [Byte.xff; Byte.xd8; Byte.xff; Byte.xe0].
Definition other_image_bytes : bytes := [Byte.x89; Byte.x50; Byte.x4e; Byte.x47].

(** An archive with a header, the main document, a footer and images, two
    of them with one base name. *)
Definition example_zip : ZipFile :=
  [ (lit "word/header1.xml", header_xml);
    (doc_xml, body_xml);
    (lit "word/footer1.xml", footer_xml);
    (lit "media/image1.png", other_image_bytes);
    (lit "word/media/image1.png", image_bytes);
    (lit "word/media/photo.PNG", other_image_bytes) ].

(** An archive without the main document. *)
Definition headers_only_zip : ZipFile := [ (lit "word/header1.xml", header_xml) ].

(** ** Tag names *)

(** The number of colons of a tag name. *)
Definition colons (t : str) : nat :=
  length (List.filter (fun c => bool_decide (c = ":"%char)) t).

(** ** Trees without the text [xml2text] does not read *)

(** The tree with the same elements, tags, attributes and [w:t] texts, and
    no other text: the [text] of the other elements and every [tail] are
    removed. *)
Fixpoint text_runs_only (e : Element) : Element :=
  match e with
  | Elem t a x _ cs =>
      Elem t a (if decide (t = W "t") then x else None) None (text_runs_only <$> cs)
  end.

(** The segments of split mode put back into one text: a newline after
    each completed segment, then the text after the last page break. *)
Definition rejoin (st : list str * str) : str :=
  concat ((fun seg => seg ++ [nl]) <$> st.1) ++ st.2.

(** The directory [out] exists and can be written into; nothing else can. *)
Definition out_writable (p : str) : bool := bool_decide (take 4 p = lit "out/").

(** * Properties *)

Arguments lit : simpl never.

Lemma qn_w_t : qn (lit "w:t") = Ok (W "t").
Proof. reflexivity. Qed.
Lemma qn_w_tab : qn (lit "w:tab") = Ok (W "tab").
Proof. reflexivity. Qed.
Lemma qn_w_br : qn (lit "w:br") = Ok (W "br").
Proof. reflexivity. Qed.
Lemma qn_w_cr : qn (lit "w:cr") = Ok (W "cr").
Proof. reflexivity. Qed.
Lemma qn_w_p : qn (lit "w:p") = Ok (W "p").
Proof. reflexivity. Qed.

#[global] Opaque qn.

Lemma W_t_ne_br : W "t" <> W "br".
Proof. discriminate. Qed.
Lemma W_tab_ne_br : W "tab" <> W "br".
Proof. discriminate. Qed.

(** The loop body, branch by branch. *)
Lemma visit_unfold split_pages texts text_ child :
  visit split_pages (texts, text_) child =
    if decide (tag child = W "t") then Ok (texts, text_ ++ default [] (text child))
    else if decide (tag child = W "tab") then Ok (texts, text_ ++ [tab])
    else
      page ← is_page_break split_pages child;
      if page : bool then Ok (texts ++ [text_], [])
      else Ok (texts, text_ ++ contribution child).
Proof.
  unfold visit, contribution.
  rewrite qn_w_t, qn_w_tab, qn_w_br, qn_w_cr, qn_w_p; cbn [mbind Result_bind].
  destruct (decide (tag child = W "t")) as [Ht|Ht].
  { destruct (text child); reflexivity. }
  destruct (decide (tag child = W "tab")) as [Htab|Htab]; [reflexivity|].
  destruct (is_page_break split_pages child) as [[|]|e]; cbn [mbind Result_bind];
    try reflexivity.
  destruct (decide (tag child = W "br" \/ tag child = W "cr")); [reflexivity|].
  destruct (decide (tag child = W "p")); [reflexivity|].
  rewrite app_nil_r. reflexivity.
Qed.

Lemma is_page_break_false child : is_page_break false child = Ok false.
Proof. reflexivity. Qed.

Lemma is_page_break_true child :
  is_page_break true child =
    if bare_break child then Raise IndexError else Ok (page_break child).
Proof.
  unfold is_page_break, bare_break, page_break, first_value.
  rewrite qn_w_br; cbn [mbind Result_bind].
  destruct (decide (tag child = W "br")) as [Hbr|Hbr].
  - rewrite !bool_decide_eq_true_2 by assumption.
    destruct (attrib child) as [|[k v] rest]; reflexivity.
  - rewrite !bool_decide_eq_false_2 by assumption. reflexivity.
Qed.

(** In non-split mode no turn of the loop raises. *)
Lemma visit_false texts text_ child :
  visit false (texts, text_) child = Ok (texts, text_ ++ contribution child).
Proof.
  rewrite visit_unfold, is_page_break_false; cbn [mbind Result_bind].
  unfold contribution.
  destruct (decide (tag child = W "t")); [reflexivity|].
  destruct (decide (tag child = W "tab")); reflexivity.
Qed.

(** In split mode a turn raises exactly on a [w:br] without attributes. *)
Lemma visit_true texts text_ child :
  visit true (texts, text_) child =
    if bare_break child then Raise IndexError
    else if page_break child then Ok (texts ++ [text_], [])
    else Ok (texts, text_ ++ contribution child).
Proof.
  rewrite visit_unfold, is_page_break_true.
  unfold bare_break, page_break, contribution.
  destruct (decide (tag child = W "t")) as [Ht|Ht].
  { rewrite !bool_decide_eq_false_2 by (rewrite Ht; apply W_t_ne_br). reflexivity. }
  destruct (decide (tag child = W "tab")) as [Htab|Htab].
  { rewrite !bool_decide_eq_false_2 by (rewrite Htab; apply W_tab_ne_br). reflexivity. }
  destruct (bool_decide (tag child = W "br") && bool_decide (attrib child = []));
    reflexivity.
Qed.

(** ** The loop over the tree *)

Lemma for_each_app {A St} (body : St -> A -> Result St) xs ys s :
  for_each body (xs ++ ys) s = s' ← for_each body xs s; for_each body ys s'.
Proof.
  revert s; induction xs as [|x xs IH]; intros s; cbn; [reflexivity|].
  destruct (body s x); cbn; [apply IH | reflexivity].
Qed.

Lemma walk_false_from xs texts text_ :
  for_each (visit false) xs (texts, text_)
  = Ok (texts, text_ ++ concat (contribution <$> xs)).
Proof.
  revert text_; induction xs as [|x xs IH]; intros text_; cbn [for_each].
  - rewrite app_nil_r. reflexivity.
  - rewrite visit_false; cbn [mbind Result_bind fmap list_fmap concat].
    rewrite IH, app_assoc. reflexivity.
Qed.

Lemma walk_true_from xs st :
  for_each (visit true) xs st
  = if existsb bare_break xs then Raise IndexError
    else Ok (foldl split_step st xs).
Proof.
  revert st; induction xs as [|x xs IH]; intros [texts text_];
    cbn [for_each existsb foldl]; [reflexivity|].
  rewrite visit_true. destruct (bare_break x); cbn [mbind Result_bind orb]; [reflexivity|].
  unfold split_step at 2; cbn [fst snd].
  destruct (page_break x); cbn [mbind Result_bind]; apply IH.
Qed.

Lemma split_step_segments xs st :
  length (foldl split_step st xs).1
  = (length st.1 + length (List.filter page_break xs))%nat.
Proof.
  revert st; induction xs as [|x xs IH]; intros [texts text_];
    cbn [foldl List.filter]; [cbn; lia|].
  rewrite IH. unfold split_step; cbn [fst snd].
  destruct (page_break x); cbn [fst length]; [rewrite length_app; cbn|]; lia.
Qed.

(** The paragraph marker comes first: visiting a [w:p] element appends the
    two newlines, and only then are its descendants visited. *)
Lemma walk_paragraph split_pages attrs x y cs texts text_ :
  for_each (visit split_pages) (iter (Elem (W "p") attrs x y cs)) (texts, text_)
  = for_each (visit split_pages) (flat_map iter cs) (texts, text_ ++ [nl; nl]).
Proof.
  cbn [iter for_each].
  assert (Hc : contribution (Elem (W "p") attrs x y cs) = [nl; nl]) by reflexivity.
  assert (Hb : bare_break (Elem (W "p") attrs x y cs) = false) by reflexivity.
  assert (Hp : page_break (Elem (W "p") attrs x y cs) = false) by reflexivity.
  destruct split_pages.
  - rewrite visit_true, Hb, Hp, Hc. reflexivity.
  - rewrite visit_false, Hc. reflexivity.
Qed.

(** ** The archive *)

Lemma read_cons n data zipf name :
  read ((n, data) :: zipf) name
  = match read zipf name with
    | Ok data' => Ok data'
    | Raise _ => if decide (n = name) then Ok data else Raise KeyError
    end.
Proof. reflexivity. Qed.

(** [read] raises, and then [KeyError], exactly for the names that are not
    in the archive. *)
Lemma read_absent zipf name :
  name ∉ namelist zipf -> read zipf name = Raise KeyError.
Proof.
  unfold namelist. induction zipf as [|[n data] zipf IH]; intros Hn; [reflexivity|].
  rewrite fmap_cons, not_elem_of_cons in Hn. destruct Hn as [Hne Hn].
  rewrite read_cons, IH by assumption. cbn in Hne.
  rewrite decide_False by congruence. reflexivity.
Qed.

Lemma read_present zipf name :
  name ∈ namelist zipf -> exists data, read zipf name = Ok data /\ (name, data) ∈ zipf.
Proof.
  unfold namelist. induction zipf as [|[n data] zipf IH]; intros Hn.
  - inversion Hn.
  - rewrite read_cons. destruct (decide (name ∈ zipf.*1)) as [Hin|Hnin].
    + destruct (IH Hin) as (d & -> & Hd). exists d. split; [reflexivity|].
      apply elem_of_cons. right. assumption.
    + rewrite (read_absent zipf name Hnin).
      rewrite fmap_cons, elem_of_cons in Hn. destruct Hn as [->|Hn]; [|contradiction].
      cbn. rewrite decide_True by reflexivity. exists data. split; [reflexivity|].
      apply elem_of_cons. left. reflexivity.
Qed.

(** The content of the last entry of a name is what [read] returns. *)
Lemma read_last l1 n data l2 :
  n ∉ namelist l2 -> read (l1 ++ (n, data) :: l2) n = Ok data.
Proof.
  intros Hn. induction l1 as [|[n' d'] l1 IH].
  - cbn [app]. rewrite read_cons, (read_absent _ _ Hn).
    rewrite decide_True by reflexivity. reflexivity.
  - cbn [app]. rewrite read_cons, IH. reflexivity.
Qed.

(** ** The assembly of the parts *)

Lemma fold_in_flatten split_pages (text_ : Text split_pages) parts :
  foldl (fold_in split_pages) text_ parts
  = fold_in split_pages text_ (flatten split_pages parts).
Proof.
  revert text_. destruct split_pages; cbn [Text fold_in flatten];
    induction parts as [|part parts IH]; intros text_; cbn [foldl concat];
    rewrite ?app_nil_r; try reflexivity; rewrite IH, app_assoc; reflexivity.
Qed.

Lemma fold_in_empty split_pages (part : Text split_pages) :
  fold_in split_pages (empty_text split_pages) part = part.
Proof. destruct split_pages; reflexivity. Qed.

Lemma flatten_app split_pages (ps qs : list (Text split_pages)) :
  flatten split_pages (ps ++ qs)
  = fold_in split_pages (flatten split_pages ps) (flatten split_pages qs).
Proof. destruct split_pages; cbn [Text fold_in flatten]; apply concat_app. Qed.

Lemma map_result_app {A B} (f : A -> Result B) xs ys :
  map_result f (xs ++ ys)
  = xs' ← map_result f xs; ys' ← map_result f ys; Ok (xs' ++ ys').
Proof.
  induction xs as [|x xs IH]; cbn [app map_result].
  - destruct (map_result f ys); reflexivity.
  - destruct (f x); cbn [mbind Result_bind]; [|reflexivity].
    rewrite IH. destruct (map_result f xs); cbn [mbind Result_bind]; [|reflexivity].
    destruct (map_result f ys); reflexivity.
Qed.

Section Assembly.

Context (fromstring : bytes -> Result Element) (writable : str -> bool).

Lemma add_part_text zipf split_pages text_ fname :
  add_part fromstring zipf split_pages text_ fname
  = part ← part_text fromstring zipf split_pages fname;
    Ok (fold_in split_pages text_ part).
Proof.
  unfold add_part, part_text. destruct (read zipf fname); reflexivity.
Qed.

(** A loop over the entry names adds the texts of the matching parts, in
    the order of the names. *)
Lemma add_matching_names pattern zipf split_pages names text_ :
  for_each
    (fun text_ fname =>
       if Re.match_ pattern fname then add_part fromstring zipf split_pages text_ fname
       else Ok text_)
    names text_
  = parts ← map_result (part_text fromstring zipf split_pages)
              (List.filter (Re.match_ pattern) names);
    Ok (foldl (fold_in split_pages) text_ parts).
Proof.
  revert text_. induction names as [|n names IH]; intros text_;
    cbn [for_each List.filter]; [reflexivity|].
  destruct (Re.match_ pattern n); cbn [mbind Result_bind map_result].
  - rewrite add_part_text.
    destruct (part_text fromstring zipf split_pages n) as [part|e];
      cbn [mbind Result_bind]; [|reflexivity].
    rewrite IH.
    destruct (map_result _ _) as [parts|e]; reflexivity.
  - apply IH.
Qed.

(** The text before the last line is the texts of the parts in the order
    of [part_names], joined in that order. *)
Lemma assemble_parts zipf split_pages :
  assemble fromstring zipf split_pages
  = parts ← map_result (part_text fromstring zipf split_pages) (part_names zipf);
    Ok (flatten split_pages parts).
Proof.
  unfold assemble, add_matching, part_names.
  rewrite !add_matching_names, !map_result_app.
  destruct (map_result _ (List.filter (Re.match_ header_xmls) _)) as [hs|e];
    cbn [mbind Result_bind]; [|reflexivity].
  rewrite add_part_text. cbn [map_result].
  destruct (part_text fromstring zipf split_pages doc_xml) as [d|e];
    cbn [mbind Result_bind]; [|reflexivity].
  rewrite add_matching_names.
  destruct (map_result _ (List.filter (Re.match_ footer_xmls) _)) as [ft|e];
    cbn [mbind Result_bind]; [|reflexivity].
  rewrite !fold_in_flatten, fold_in_empty, !flatten_app.
  f_equal. destruct split_pages; cbn [Text fold_in flatten concat];
    rewrite ?app_nil_r, ?app_assoc; reflexivity.
Qed.

(** [process] reads the parts in the order of [part_names], joins their
    texts in that order, extracts the images and trims the text. *)
Lemma process_assembles zipf split_pages img_dir fs :
  process fromstring writable zipf split_pages img_dir fs
  = match map_result (part_text fromstring zipf split_pages) (part_names zipf) with
    | Ok parts =>
        match extract_images writable zipf img_dir fs with
        | (Ok _, fs') => (Ok (finish split_pages (flatten split_pages parts)), fs')
        | (Raise e, fs') => (Raise e, fs')
        end
    | Raise e => (Raise e, fs)
    end.
Proof.
  unfold process. rewrite assemble_parts.
  destruct (map_result _ _) as [parts|e]; reflexivity.
Qed.

End Assembly.

(** ** Paths *)

Lemma rfind_spec c s :
  (Str.rfind c s = -1 /\ c ∉ s)
  \/ (exists pre post, s = pre ++ c :: post /\ (c ∉ post)
                       /\ Str.rfind c s = Z.of_nat (length pre)).
Proof.
  induction s as [|d s IH]; cbn [Str.rfind].
  - left. split; [reflexivity|]. apply not_elem_of_nil.
  - destruct IH as [[Hr Hn]|(pre & post & -> & Hn & Hr)]; rewrite Hr.
    + destruct (Z.leb_spec 0 (-1)) as [?|_]; [lia|].
      destruct (decide (d = c)) as [->|Hne].
      * right. exists [], s. repeat split; assumption.
      * left. split; [reflexivity|]. rewrite not_elem_of_cons. split; congruence.
    + destruct (Z.leb_spec 0 (Z.of_nat (length pre))) as [_|?]; [|lia].
      right. exists (d :: pre), post. repeat split; [assumption|].
      cbn [length]. lia.
Qed.

(** The base name is what follows the last slash: it holds no slash, and
    the name is a directory prefix, empty or ending in a slash, followed by
    it. *)
Lemma basename_spec p :
  ("/"%char ∉ Path.basename p)
  /\ exists dir, p = dir ++ Path.basename p /\ (dir = [] \/ last dir = Some "/"%char).
Proof.
  unfold Path.basename, Str.from.
  destruct (rfind_spec "/" p) as [[Hr Hn]|(pre & post & -> & Hn & Hr)]; rewrite Hr.
  - cbn. split; [assumption|]. exists []. split; [reflexivity|]. left; reflexivity.
  - replace (Z.to_nat (Z.of_nat (length pre) + 1)) with (length (pre ++ ["/"%char]))
      by (rewrite length_app; cbn; lia).
    rewrite (cons_middle _ pre post), app_assoc, drop_app_length.
    split; [assumption|]. exists (pre ++ ["/"%char]). split; [reflexivity|].
    right. apply last_snoc.
Qed.

Lemma startswith_not_elem c s : c ∉ s -> Str.startswith c s = false.
Proof.
  destruct s as [|d s]; [reflexivity|]. intros Hn. cbn.
  apply bool_decide_eq_false_2. intros ->. apply Hn. left.
Qed.

(** Two base names joined to one directory give equal paths only when they
    are equal. *)
Lemma dst_of_inj img_dir n1 n2 :
  dst_of img_dir n1 = dst_of img_dir n2 -> Path.basename n1 = Path.basename n2.
Proof.
  unfold dst_of, Path.join.
  rewrite !startswith_not_elem by apply basename_spec.
  destruct (bool_decide (img_dir = []) || Str.endswith "/" img_dir); intros H.
  - exact (app_inv_head _ _ _ H).
  - apply app_inv_head in H. exact (app_inv_head _ _ _ H).
Qed.

(** ** The image loop *)

Lemma extract_image_unfold writable zipf img_dir fs fname :
  extract_image writable zipf img_dir fs fname
  = if is_image fname then
      if writable (dst_of img_dir fname) then
        match read zipf fname with
        | Ok data => (Ok tt, <[dst_of img_dir fname := data]> fs)
        | Raise e => (Raise e, <[dst_of img_dir fname := []]> fs)
        end
      else (Raise OSError, fs)
    else (Ok tt, fs).
Proof.
  unfold extract_image, is_image, dst_of.
  destruct (Path.splitext fname) as [root ext]. reflexivity.
Qed.

Lemma opened_app writable img_dir xs ys :
  opened writable img_dir (xs ++ ys)
  = if can_write writable img_dir xs then xs ++ opened writable img_dir ys
    else opened writable img_dir xs.
Proof.
  induction xs as [|x xs IH]; cbn [app can_write forallb opened]; [reflexivity|].
  destruct (negb (is_image x) || writable (dst_of img_dir x)); cbn [andb];
    [|reflexivity].
  rewrite IH. fold (can_write writable img_dir xs).
  destruct (can_write writable img_dir xs); reflexivity.
Qed.

Lemma opened_all writable img_dir names :
  can_write writable img_dir names = true -> opened writable img_dir names = names.
Proof.
  induction names as [|n names IH]; cbn [can_write forallb opened]; [reflexivity|].
  destruct (negb (is_image n) || writable (dst_of img_dir n)); cbn [andb];
    [|discriminate].
  intros H. f_equal. exact (IH H).
Qed.

(** The loop raises only at a path that cannot be written, and then
    [OSError]: every name it reads is an entry. The images of the names
    before that one are written. *)
Lemma extract_image_names writable zipf img_dir names fs :
  names ⊆ namelist zipf ->
  for_each_io (extract_image writable zipf img_dir) names fs
  = (if can_write writable img_dir names then Ok tt else Raise OSError,
     foldl (store zipf img_dir) fs (opened writable img_dir names)).
Proof.
  revert fs. induction names as [|n names IH]; intros fs Hsub;
    cbn [for_each_io foldl can_write forallb opened]; [reflexivity|].
  assert (Hn : n ∈ namelist zipf) by (apply Hsub; left).
  destruct (read_present _ _ Hn) as (data & Hread & _).
  assert (Hrest : names ⊆ namelist zipf) by (intros x Hx; apply Hsub; right; exact Hx).
  assert (Hstore : store zipf img_dir fs n
                   = if is_image n then <[dst_of img_dir n := data]> fs else fs)
    by (unfold store; rewrite Hread; reflexivity).
  rewrite extract_image_unfold.
  destruct (is_image n); cbn [negb orb andb].
  - destruct (writable (dst_of img_dir n)); cbn [andb foldl]; [|reflexivity].
    rewrite Hread, Hstore. apply IH, Hrest.
  - cbn [foldl]. rewrite Hstore. apply IH, Hrest.
Qed.

Lemma extract_images_ok writable zipf img_dir fs :
  extract_images writable zipf img_dir fs
  = match img_dir with
    | Some d =>
        (if can_write writable d (namelist zipf) then Ok tt else Raise OSError,
         foldl (store zipf d) fs (opened writable d (namelist zipf)))
    | None => (Ok tt, fs)
    end.
Proof.
  destruct img_dir as [d|]; [|reflexivity].
  apply extract_image_names. reflexivity.
Qed.

(** An archive without image entries: the loop opens no file. *)
Lemma no_images_written writable zipf img_dir fs :
  forallb (fun n => negb (is_image n)) (namelist zipf) = true ->
  extract_images writable zipf img_dir fs = (Ok tt, fs).
Proof.
  intros Hnone. rewrite extract_images_ok. destruct img_dir as [d|]; [|reflexivity].
  revert Hnone. generalize (namelist zipf) as names. intros names. revert fs.
  induction names as [|n names IH]; intros fs Hnone; [reflexivity|].
  cbn [forallb] in Hnone. apply andb_true_iff in Hnone as [Hn Hnone].
  apply negb_true_iff in Hn. cbn [can_write forallb opened]. rewrite Hn.
  cbn [negb orb andb foldl]. unfold store at 2. rewrite Hn. exact (IH fs Hnone).
Qed.

(** A path that no image entry of [names] is written to keeps its file. *)
Lemma store_frame zipf img_dir names fs p :
  (forall n, n ∈ names -> is_image n = true -> (dst_of img_dir n) <> p) ->
  (foldl (store zipf img_dir) fs names) !! p = fs !! p.
Proof.
  revert fs. induction names as [|n names IH]; intros fs Hp; cbn [foldl]; [reflexivity|].
  rewrite IH by (intros n' Hn'; apply Hp; right; exact Hn').
  unfold store. destruct (is_image n) eqn:Himg; [|reflexivity].
  destruct (read zipf n); [|reflexivity].
  apply lookup_insert_ne. apply Hp; [left|assumption].
Qed.

(** ** [str.strip] *)

Lemma lstrip_spec s :
  exists ws, s = ws ++ Str.lstrip s /\ blank ws
             /\ (forall c, head (Str.lstrip s) = Some c -> Str.isspace c = false).
Proof.
  induction s as [|c s (ws & Hs & Hws & Hhd)]; cbn [Str.lstrip].
  - exists []. repeat split; [constructor | discriminate].
  - destruct (Str.isspace c) eqn:Hc.
    + exists (c :: ws). repeat split.
      * cbn. f_equal. exact Hs.
      * constructor; assumption.
      * exact Hhd.
    + exists []. repeat split; [constructor|].
      intros c' [= <-]. exact Hc.
Qed.

Lemma rstrip_spec s :
  exists ws, s = Str.rstrip s ++ ws /\ blank ws
             /\ (forall c, last (Str.rstrip s) = Some c -> Str.isspace c = false).
Proof.
  unfold Str.rstrip.
  destruct (lstrip_spec (reverse s)) as (ws & Hs & Hws & Hhd).
  exists (reverse ws). repeat split.
  - rewrite <- reverse_app, <- Hs, reverse_involutive. reflexivity.
  - unfold blank. rewrite Forall_reverse. exact Hws.
  - intros c. rewrite last_reverse. apply Hhd.
Qed.

(** [strip] removes a run of whitespace at each end and leaves none. *)
Lemma strip_spec s :
  exists l r, s = l ++ Str.strip s ++ r /\ blank l /\ blank r /\ trimmed (Str.strip s).
Proof.
  unfold Str.strip.
  destruct (lstrip_spec s) as (l & Hs & Hl & Hhd).
  destruct (rstrip_spec (Str.lstrip s)) as (r & Hr & Hbr & Hlast).
  exists l, r. repeat split; try assumption.
  - rewrite <- Hr. exact Hs.
  - intros c Hc. apply Hhd.
    destruct (Str.rstrip (Str.lstrip s)) as [|c' t] eqn:E; [discriminate|].
    rewrite Hr. cbn in Hc |- *. exact Hc.
Qed.

Lemma strip_trimmed s : trimmed (Str.strip s).
Proof. destruct (strip_spec s) as (l & r & _ & _ & _ & H). exact H. Qed.

(** A blank string is stripped to the empty string. *)
Lemma lstrip_blank s : blank s -> Str.lstrip s = [].
Proof.
  induction 1 as [|c s Hc _ IH]; [reflexivity|]. cbn. rewrite Hc. exact IH.
Qed.

Lemma strip_blank s : blank s -> Str.strip s = [].
Proof. intros H. unfold Str.strip. rewrite lstrip_blank by assumption. reflexivity. Qed.

(** ** [strip_list] *)

Lemma pop_leading_spec lst :
  exists pre, lst = pre ++ pop_leading lst /\ Forall (fun x => x = []) pre
              /\ (forall x, head (pop_leading lst) = Some x -> x <> []).
Proof.
  induction lst as [|x lst (pre & Hl & Hpre & Hhd)]; cbn [pop_leading].
  - exists []. repeat split; [constructor | discriminate].
  - destruct (decide (x = [])) as [Hx|Hx].
    + rewrite bool_decide_eq_true_2 by assumption.
      exists (x :: pre). repeat split.
      * cbn. f_equal. exact Hl.
      * constructor; assumption.
      * exact Hhd.
    + rewrite bool_decide_eq_false_2 by assumption.
      exists []. repeat split; [constructor|].
      intros x' [= <-]. exact Hx.
Qed.

(** The first loop of [strip_list]: [length lst] turns are enough for the
    list to end, when it is not empty, with an element that is not empty. *)
Lemma pop_trailing_spec fuel lst :
  (length lst <= fuel)%nat ->
  exists post, lst = pop_trailing fuel lst ++ post /\ Forall (fun x => x = []) post
               /\ (forall x, last (pop_trailing fuel lst) = Some x -> x <> []).
Proof.
  revert lst. induction fuel as [|fuel IH]; intros lst Hlen.
  - destruct lst; [|cbn in Hlen; lia]. exists []. repeat split; [constructor | discriminate].
  - cbn [pop_trailing]. destruct lst as [|x0 lst0] using rev_ind.
    + exists []. repeat split; [constructor | discriminate].
    + clear IHlst0. rewrite last_snoc.
      destruct (decide (x0 = [])) as [Hx|Hx].
      * rewrite bool_decide_eq_true_2 by assumption.
        rewrite removelast_last.
        destruct (IH lst0) as (post & Hl & Hpost & Hlast).
        { rewrite length_app in Hlen; cbn in Hlen; lia. }
        exists (post ++ [x0]). repeat split.
        -- rewrite app_assoc, <- Hl. reflexivity.
        -- apply Forall_app. split; [assumption|]. constructor; [assumption|constructor].
        -- exact Hlast.
      * rewrite bool_decide_eq_false_2 by assumption.
        exists []. repeat split; [rewrite app_nil_r; reflexivity | constructor |].
        intros x. rewrite last_snoc. intros [= <-]. exact Hx.
Qed.

(** What [strip_list] returns: the list without a run of empty elements at
    each end, with no empty element left at either end. *)
Lemma strip_list_decompose lst :
  exists pre post, lst = pre ++ strip_list lst ++ post
    /\ Forall (fun x => x = []) pre /\ Forall (fun x => x = []) post
    /\ no_empty_ends (strip_list lst).
Proof.
  unfold strip_list.
  destruct (pop_trailing_spec (length lst) lst) as (post & Hl & Hpost & Hlast); [lia|].
  destruct (pop_leading_spec (pop_trailing (length lst) lst)) as (pre & Hp & Hpre & Hhd).
  exists pre, post. repeat split; try assumption.
  - rewrite app_assoc, <- Hp. exact Hl.
  - intros x Hx. apply Hlast. rewrite Hp.
    destruct (pop_leading (pop_trailing (length lst) lst)) as [|y t] eqn:E; [discriminate|].
    rewrite last_app. rewrite Hx. reflexivity.
Qed.

(** Every run of consecutive elements that starts and ends with an element
    that is not empty lies within what [strip_list] returns. *)
Lemma strip_list_longest lst a m b :
  lst = a ++ m ++ b ->
  (exists x, head m = Some x /\ x <> []) ->
  (exists y, last m = Some y /\ y <> []) ->
  exists a' b', strip_list lst = a' ++ m ++ b'.
Proof.
  intros -> (x & Hx & Hxne) (y & Hy & Hyne).
  destruct (strip_list_decompose (a ++ m ++ b))
    as (pre & post & Hdec & Hpre & Hpost & _).
  apply head_Some in Hx as [m1 Hm1]. apply last_Some in Hy as [m2 Hm2].
  set (kept := strip_list (a ++ m ++ b)) in *.
  assert (Hk : exists k, a = pre ++ k /\ kept ++ post = k ++ m ++ b).
  { destruct (app_eq_inv _ _ _ _ Hdec) as [(k & Hk1 & Hk2)|(k & Hk1 & Hk2)].
    - exists k. split; [exact Hk1|]. exact Hk2.
    - destruct k as [|z k].
      + exists []. rewrite app_nil_r in Hk1. rewrite app_nil_r, Hk1.
        split; [reflexivity|]. symmetry; exact Hk2.
      + exfalso. rewrite Hm1 in Hk2. injection Hk2 as <- _.
        rewrite Hk1 in Hpre. apply Forall_app in Hpre as [_ Hpre].
        inversion Hpre; subst. contradiction. }
  destruct Hk as (k & -> & Hk). rewrite (app_assoc k m b) in Hk.
  destruct (app_eq_inv _ _ _ _ Hk) as [(j & Hj1 & Hj2)|(j & Hj1 & Hj2)].
  - exists k, j. fold kept. rewrite Hj1, <- app_assoc. reflexivity.
  - destruct j as [|z j _] using rev_ind.
    + exists k, []. fold kept. rewrite app_nil_r in Hj1. rewrite app_nil_r.
      symmetry. exact Hj1.
    + exfalso. rewrite Hm2, !app_assoc in Hj1.
      apply app_inj_tail in Hj1 as [_ <-].
      rewrite Hj2 in Hpost. apply Forall_app in Hpost as [Hpost _].
      apply Forall_app in Hpost as [_ Hpost]. inversion Hpost; subst. contradiction.
Qed.

Lemma strip_list_all_empty lst :
  Forall (fun x => x = []) lst -> strip_list lst = [].
Proof.
  intros Hall.
  destruct (strip_list_decompose lst) as (pre & post & Hdec & _ & _ & Hhd & _).
  destruct (strip_list lst) as [|x t]; [reflexivity|]. exfalso.
  apply (Hhd x); [reflexivity|].
  rewrite Hdec in Hall. apply Forall_app in Hall as [_ Hall].
  inversion Hall; subst. reflexivity.
Qed.

(** C6. [strip_list] removes the empty elements at the head and at the end
    of a list and keeps what lies between, in order: on
    [["", "A", "", "B", ""]] it returns [["A", "", "B"]]; in general the
    list is a run of empty elements, the result, and a run of empty
    elements; the result has no empty element at either end; every run of
    consecutive elements that starts and ends with an element that is not
    empty lies within it (so it is the longest one); and it is the empty
    list when every element is empty. *)
Theorem strip_list_correct :
  strip_list [[]; lit "A"; []; lit "B"; []] = [lit "A"; []; lit "B"]
  /\ forall lst : list str,
       (exists pre post, lst = pre ++ strip_list lst ++ post
          /\ Forall (fun x => x = []) pre /\ Forall (fun x => x = []) post)
       /\ no_empty_ends (strip_list lst)
       /\ (forall a m b, lst = a ++ m ++ b ->
             (exists x, head m = Some x /\ x <> []) ->
             (exists y, last m = Some y /\ y <> []) ->
             (exists a' b', strip_list lst = a' ++ m ++ b')
             /\ (length m <= length (strip_list lst))%nat)
       /\ (Forall (fun x => x = []) lst -> strip_list lst = []).
Proof.
  split; [reflexivity|]. intros lst.
  destruct (strip_list_decompose lst) as (pre & post & Hdec & Hpre & Hpost & Hends).
  split; [exists pre, post; auto|]. split; [exact Hends|]. split.
  - intros a m b Hlst Hx Hy.
    destruct (strip_list_longest lst a m b Hlst Hx Hy) as (a' & b' & Heq).
    split; [exists a', b'; exact Heq|].
    rewrite Heq, !length_app. lia.
  - apply strip_list_all_empty.
Qed.

(** ** [xml2text] on a tree *)

Lemma xml2text_tree_false root :
  xml2text_tree root false = Ok (concat (contribution <$> iter root)).
Proof.
  unfold xml2text_tree, walk. rewrite walk_false_from. reflexivity.
Qed.

Lemma xml2text_tree_true root :
  xml2text_tree root true
  = if existsb bare_break (iter root) then Raise IndexError
    else Ok (foldl split_step ([], []) (iter root)).1.
Proof.
  unfold xml2text_tree, walk. rewrite walk_true_from.
  destruct (existsb bare_break (iter root)); reflexivity.
Qed.

Lemma existsb_bare_break xs :
  existsb bare_break xs = true
  <-> exists child, child ∈ xs /\ tag child = W "br" /\ attrib child = [].
Proof.
  rewrite existsb_exists. unfold bare_break. split.
  - intros (c & Hin & Hc). apply andb_true_iff in Hc as [Ht Ha].
    exists c. rewrite list_elem_of_In. repeat split; [assumption| |].
    + apply bool_decide_eq_true_1 in Ht. exact Ht.
    + apply bool_decide_eq_true_1 in Ha. exact Ha.
  - intros (c & Hin & Ht & Ha). exists c. rewrite <- list_elem_of_In.
    split; [assumption|]. rewrite !bool_decide_eq_true_2 by assumption. reflexivity.
Qed.

Section OnePart.

Context (fromstring : bytes -> Result Element) (writable : str -> bool).

(** An archive whose only entry is the main document. *)
Lemma process_one_part xml root split_pages img_dir fs :
  fromstring xml = Ok root ->
  process fromstring writable [(doc_xml, xml)] split_pages img_dir fs
  = (finish split_pages <$> xml2text_tree root split_pages, fs).
Proof.
  intros Hparse.
  rewrite process_assembles, (no_images_written _ [(doc_xml, xml)]) by reflexivity.
  change (part_names [(doc_xml, xml)]) with [doc_xml].
  cbn [map_result]. unfold part_text.
  change (read [(doc_xml, xml)] doc_xml) with (Ok xml).
  cbn [mbind Result_bind]. unfold xml2text. rewrite Hparse. cbn [mbind Result_bind].
  destruct (xml2text_tree root split_pages) as [part|e]; cbn [mbind Result_bind];
    [|reflexivity].
  destruct split_pages; cbn [Text flatten concat]; rewrite app_nil_r; reflexivity.
Qed.

End OnePart.

(** C1. In split mode [xml2text] returns the segments completed at the
    page breaks and nothing else: the text accumulated after the last page
    break is not appended, so a tree with N page breaks gives N segments,
    not N + 1. On a document that is the one paragraph Hello it returns the
    empty list, and so does [process]; on text, a page break and text, the
    text after the break is lost. *)
Theorem xml2text_split_drops_trailing_text :
  (forall root, existsb bare_break (iter root) = false ->
     exists texts text_,
       walk true root = Ok (texts, text_)
       /\ xml2text_tree root true = Ok texts
       /\ length texts = page_breaks root)
  /\ walk true hello_doc = Ok ([], nl :: nl :: lit "Hello")
  /\ xml2text_tree hello_doc true = Ok []
  /\ page_breaks hello_doc = 0%nat
  /\ walk true two_page_doc = Ok ([nl :: nl :: lit "A"], lit "B")
  /\ xml2text_tree two_page_doc true = Ok [nl :: nl :: lit "A"]
  /\ page_breaks two_page_doc = 1%nat
  /\ (forall fromstring writable xml img_dir fs,
        fromstring xml = Ok hello_doc ->
        process fromstring writable [(doc_xml, xml)] true img_dir fs = (Ok [], fs)).
Proof.
  split; [|repeat split; try reflexivity].
  - intros root Hbare.
    exists (foldl split_step ([], []) (iter root)).1,
           (foldl split_step ([], []) (iter root)).2.
    repeat split.
    + unfold walk. rewrite walk_true_from, Hbare.
      destruct (foldl split_step ([], []) (iter root)); reflexivity.
    + rewrite xml2text_tree_true, Hbare. reflexivity.
    + rewrite split_step_segments. reflexivity.
  - intros fromstring writable xml img_dir fs Hparse.
    rewrite (process_one_part fromstring writable xml hello_doc true img_dir fs Hparse).
    reflexivity.
Qed.

(** C2. A [w:br] element without attributes makes [xml2text] raise
    [IndexError] in split mode: the page-break test takes the first
    attribute value of an empty list. Split mode raises exactly on the trees
    that hold such an element; non-split mode never raises and every
    [w:br] or [w:cr] adds one newline; in split mode a break that has
    attributes and is not a page break, and every [w:cr], adds one
    newline. *)
Theorem xml2text_bare_break_raises :
  (forall root,
     xml2text_tree root true = Raise IndexError
     <-> exists child, child ∈ iter root /\ tag child = W "br" /\ attrib child = [])
  /\ (forall texts text_ child,
        tag child = W "br" -> attrib child = [] ->
        visit true (texts, text_) child = Raise IndexError)
  /\ (forall root, xml2text_tree root false = Ok (concat (contribution <$> iter root)))
  /\ (forall texts text_ child,
        tag child = W "br" \/ tag child = W "cr" ->
        visit false (texts, text_) child = Ok (texts, text_ ++ [nl]))
  /\ (forall texts text_ child,
        tag child = W "br" \/ tag child = W "cr" ->
        bare_break child = false -> page_break child = false ->
        visit true (texts, text_) child = Ok (texts, text_ ++ [nl]))
  /\ xml2text_tree line_break_doc true = Raise IndexError
  /\ xml2text_tree line_break_doc false = Ok (nl :: nl :: lit "a" ++ nl :: lit "b").
Proof.
  assert (Hnl : forall child, tag child = W "br" \/ tag child = W "cr" ->
                              contribution child = [nl]).
  { intros child Htag. unfold contribution.
    rewrite (decide_False (P := tag child = W "t"))
      by (destruct Htag as [-> | ->]; discriminate).
    rewrite (decide_False (P := tag child = W "tab"))
      by (destruct Htag as [-> | ->]; discriminate).
    rewrite decide_True by assumption. reflexivity. }
  repeat split; try reflexivity.
  - intros H. apply existsb_bare_break. rewrite xml2text_tree_true in H.
    destruct (existsb bare_break (iter root)); [reflexivity|discriminate].
  - intros H. apply existsb_bare_break in H. rewrite xml2text_tree_true, H. reflexivity.
  - intros texts text_ child Ht Ha. rewrite visit_true. unfold bare_break.
    rewrite !bool_decide_eq_true_2 by assumption. reflexivity.
  - apply xml2text_tree_false.
  - intros texts text_ child Htag. rewrite visit_false, Hnl by assumption. reflexivity.
  - intros texts text_ child Htag Hb Hp. rewrite visit_true, Hb, Hp, Hnl by assumption.
    reflexivity.
Qed.

(** ** Paragraphs *)

Lemma walk_paragraphs split_pages ps texts text_ :
  for_each (visit split_pages) (flat_map iter (paragraph <$> ps)) (texts, text_)
  = Ok (texts, text_ ++ paragraphs_text ps).
Proof.
  unfold paragraphs_text.
  revert text_. induction ps as [|p ps IH]; intros text_;
    cbn [fmap list_fmap flat_map concat for_each].
  - rewrite app_nil_r. reflexivity.
  - rewrite for_each_app.
    change (iter (paragraph p)) with (iter (Elem (W "p") [] None None [w_r [w_t p]])).
    rewrite walk_paragraph.
    cbn [flat_map iter w_r w_t app for_each].
    assert (Hr : forall st, visit split_pages st (Elem (W "r") [] None None [w_t p]) = Ok st).
    { intros [ts t]. destruct split_pages; [rewrite visit_true | rewrite visit_false];
        cbn; rewrite app_nil_r; reflexivity. }
    assert (Ht : forall ts t, visit split_pages (ts, t) (Elem (W "t") [] (Some p) None [])
                              = Ok (ts, t ++ p)).
    { intros ts t. destruct split_pages; [rewrite visit_true | rewrite visit_false];
        reflexivity. }
    unfold w_r, w_t. rewrite Hr; cbn [mbind Result_bind]. rewrite Ht; cbn [mbind Result_bind].
    rewrite IH. rewrite <- !app_assoc. reflexivity.
Qed.

(** C10. The two newlines of a paragraph are appended when the [w:p]
    element is visited, before its descendants: they precede the text of
    the paragraph. A part of paragraphs P1, ..., Pk leaves
    [\n\nP1\n\nP2...\n\nPk] in the accumulator (in both modes), which is
    what non-split [xml2text] returns; and [process] returns [Hello] for
    a document that is the one paragraph Hello. *)
Theorem paragraph_marker_precedes_text :
  (forall split_pages attrs x y cs texts text_,
     for_each (visit split_pages) (iter (Elem (W "p") attrs x y cs)) (texts, text_)
     = for_each (visit split_pages) (flat_map iter cs) (texts, text_ ++ [nl; nl]))
  /\ (forall split_pages ps,
        walk split_pages (w_document [w_body (paragraph <$> ps)])
        = Ok ([], paragraphs_text ps))
  /\ (forall ps,
        xml2text_tree (w_document [w_body (paragraph <$> ps)]) false
        = Ok (paragraphs_text ps))
  /\ paragraphs_text [lit "P1"; lit "P2"]
     = [nl; nl] ++ lit "P1" ++ [nl; nl] ++ lit "P2"
  /\ (forall fromstring writable xml img_dir fs,
        fromstring xml = Ok hello_doc ->
        process fromstring writable [(doc_xml, xml)] false img_dir fs = (Ok (lit "Hello"), fs)).
Proof.
  assert (Hwalk : forall split_pages ps,
            walk split_pages (w_document [w_body (paragraph <$> ps)])
            = Ok ([], paragraphs_text ps)).
  { intros split_pages ps. unfold walk, w_document, w_body.
    cbn [iter flat_map for_each]. rewrite app_nil_r.
    assert (Hskip : forall t cs st, t = W "document" \/ t = W "body" ->
              visit split_pages st (Elem t [] None None cs) = Ok st).
    { intros t cs [ts tx] [-> | ->];
        (destruct split_pages; [rewrite visit_true | rewrite visit_false]);
        cbn; rewrite app_nil_r; reflexivity. }
    rewrite Hskip by auto. cbn [mbind Result_bind for_each].
    rewrite Hskip by auto. cbn [mbind Result_bind].
    apply (walk_paragraphs split_pages ps [] []). }
  split; [exact walk_paragraph|]. split; [exact Hwalk|]. split; [|split].
  - intros ps. unfold xml2text_tree. rewrite Hwalk. reflexivity.
  - reflexivity.
  - intros fromstring writable xml img_dir fs Hparse.
    rewrite (process_one_part fromstring writable xml hello_doc false img_dir fs Hparse).
    reflexivity.
Qed.

(** ** [process] *)

(** C4. [process] assembles the texts of the parts in a fixed order: the
    header parts in the order of the archive, the main document, the
    footer parts in the order of the archive. For an archive whose
    header1.xml, document.xml and footer1.xml are one paragraph each of
    H1, BODY and F1, the non-split result is [H1\n\nBODY\n\nF1],
    wherever the three entries stand in the archive. *)
Theorem process_part_order :
  (forall fromstring writable zipf split_pages img_dir fs,
     process fromstring writable zipf split_pages img_dir fs
     = match map_result (part_text fromstring zipf split_pages)
               (List.filter (Re.match_ header_xmls) (namelist zipf)
                ++ [doc_xml]
                ++ List.filter (Re.match_ footer_xmls) (namelist zipf)) with
       | Ok parts =>
           match extract_images writable zipf img_dir fs with
           | (Ok _, fs') => (Ok (finish split_pages (flatten split_pages parts)), fs')
           | (Raise e, fs') => (Raise e, fs')
           end
       | Raise e => (Raise e, fs)
       end)
  /\ (forall fromstring writable h d f img_dir fs,
        fromstring h = Ok header_H1 ->
        fromstring d = Ok document_BODY ->
        fromstring f = Ok footer_F1 ->
        process fromstring writable
          [(lit "word/header1.xml", h); (doc_xml, d); (lit "word/footer1.xml", f)]
          false img_dir fs
        = (Ok (lit "H1" ++ [nl; nl] ++ lit "BODY" ++ [nl; nl] ++ lit "F1"), fs)
        /\ process fromstring writable
             [(lit "word/footer1.xml", f); (doc_xml, d); (lit "word/header1.xml", h)]
             false img_dir fs
           = (Ok (lit "H1" ++ [nl; nl] ++ lit "BODY" ++ [nl; nl] ++ lit "F1"), fs)).
Proof.
  split; [exact process_assembles|].
  intros fromstring writable h d f img_dir fs Hh Hd Hf.
  assert (Htext : forall zipf name xml root,
            read zipf name = Ok xml -> fromstring xml = Ok root ->
            part_text fromstring zipf false name = xml2text_tree root false).
  { intros zipf name xml root Hread Hparse. unfold part_text, xml2text.
    rewrite Hread; cbn [mbind Result_bind]. rewrite Hparse. reflexivity. }
  split; rewrite process_assembles, no_images_written by reflexivity.
  - set (zipf := [(lit "word/header1.xml", h); (doc_xml, d); (lit "word/footer1.xml", f)]).
    change (part_names zipf) with [lit "word/header1.xml"; doc_xml; lit "word/footer1.xml"].
    cbn [map_result].
    rewrite (Htext zipf (lit "word/header1.xml") h header_H1),
      (Htext zipf doc_xml d document_BODY),
      (Htext zipf (lit "word/footer1.xml") f footer_F1) by (assumption || reflexivity).
    reflexivity.
  - set (zipf := [(lit "word/footer1.xml", f); (doc_xml, d); (lit "word/header1.xml", h)]).
    change (part_names zipf) with [lit "word/header1.xml"; doc_xml; lit "word/footer1.xml"].
    cbn [map_result].
    rewrite (Htext zipf (lit "word/header1.xml") h header_H1),
      (Htext zipf doc_xml d document_BODY),
      (Htext zipf (lit "word/footer1.xml") f footer_F1) by (assumption || reflexivity).
    reflexivity.
Qed.

(** C5. Without an entry [word/document.xml] the call raises in both
    modes, whatever the other entries are, and so returns no text: it
    raises [KeyError] when the header parts have been read without an
    exception, and the exception of the header loop otherwise. It raises
    before the image loop, so the files are left as they were. *)
Theorem process_missing_document fromstring writable zipf split_pages img_dir fs :
  doc_xml ∉ namelist zipf ->
  (exists e, process fromstring writable zipf split_pages img_dir fs = (Raise e, fs))
  /\ (forall text_,
        add_matching fromstring header_xmls zipf split_pages (empty_text split_pages)
        = Ok text_ ->
        process fromstring writable zipf split_pages img_dir fs = (Raise KeyError, fs)).
Proof.
  intros Habsent. unfold process, assemble, add_part.
  rewrite (read_absent zipf doc_xml Habsent).
  destruct (add_matching fromstring header_xmls zipf split_pages (empty_text split_pages))
    as [text_|e]; cbn [mbind Result_bind].
  - split; [exists KeyError; reflexivity|]. intros _ _. reflexivity.
  - split; [exists e; reflexivity|]. intros t [=].
Qed.

(** C9. Image extraction comes after the text is assembled and does not
    touch it: when the call with an image directory returns, the call
    without one returns the identical value and leaves the files as they
    were; when the call without one raises, the call with one raises the
    same exception and leaves the files as they were; and when the call
    without one returns, the call with one returns the same value if it
    returns. It need not return: the image loop can raise, as it does when
    the file of an image cannot be opened. *)
Theorem process_text_independent_of_images :
  forall fromstring writable zipf split_pages d fs,
    (forall r fs',
       process fromstring writable zipf split_pages (Some d) fs = (Ok r, fs') ->
       process fromstring writable zipf split_pages None fs = (Ok r, fs))
    /\ (forall e fs0,
          process fromstring writable zipf split_pages None fs = (Raise e, fs0) ->
          fs0 = fs
          /\ process fromstring writable zipf split_pages (Some d) fs = (Raise e, fs))
    /\ (forall r fs0,
          process fromstring writable zipf split_pages None fs = (Ok r, fs0) ->
          fs0 = fs
          /\ forall r' fs',
               process fromstring writable zipf split_pages (Some d) fs = (Ok r', fs') ->
               r' = r).
Proof.
  intros fromstring writable zipf split_pages d fs.
  rewrite !process_assembles, !extract_images_ok.
  destruct (map_result _ _) as [parts|e].
  - destruct (can_write writable d (namelist zipf)); (split; [|split]).
    + intros r fs' [= <- _]. reflexivity.
    + discriminate.
    + intros r fs0 [= <- <-]. split; [reflexivity|]. intros r' fs' [= <- _]. reflexivity.
    + discriminate.
    + discriminate.
    + intros r fs0 [= <- <-]. split; [reflexivity|]. discriminate.
  - split; [discriminate|]. split; [|discriminate].
    intros e' fs0 [= <- <-]. split; reflexivity.
Qed.

(** With an image whose path cannot be written, [process] raises with an
    image directory and returns the text without one. *)
Lemma process_text_independent_of_images_counterexample :
  process example_fromstring out_writable example_zip false (Some (lit "missing")) ∅
  = (Raise OSError, ∅)
  /\ process example_fromstring out_writable example_zip false None ∅
     = (Ok (lit "H1" ++ [nl; nl] ++ lit "BODY" ++ [nl; nl] ++ lit "F1"), ∅)
  /\ (process example_fromstring out_writable example_zip false
        (Some (lit "missing")) ∅).1
     <> (process example_fromstring out_writable example_zip false None ∅).1.
Proof.
  assert (H1 : process example_fromstring out_writable example_zip false
                 (Some (lit "missing")) ∅ = (Raise OSError, ∅)) by reflexivity.
  assert (H2 : process example_fromstring out_writable example_zip false None ∅
               = (Ok (lit "H1" ++ [nl; nl] ++ lit "BODY" ++ [nl; nl] ++ lit "F1"), ∅))
    by reflexivity.
  split; [exact H1|]. split; [exact H2|]. rewrite H1, H2. discriminate.
Qed.

Lemma process_finish fromstring writable zipf split_pages img_dir fs r fs' :
  process fromstring writable zipf split_pages img_dir fs = (Ok r, fs') ->
  exists text_, r = finish split_pages text_.
Proof.
  rewrite process_assembles.
  destruct (map_result _ _) as [parts|e]; [|discriminate].
  destruct (extract_images writable zipf img_dir fs) as [[[]|e] fs1]; [|discriminate].
  intros [= <- _]. eexists; reflexivity.
Qed.

(** C3. Non-split mode returns a string with no whitespace at either end,
    and split mode returns segments each with no whitespace at either
    end; but split mode removes the empty segments at the ends before it
    trims the segments, so a segment of whitespace only that stands first
    or last is kept and becomes an empty segment: for a document whose
    first page is blank the result is [["", "B"]]. *)
Theorem process_split_keeps_blank_end_segments :
  (forall fromstring writable zipf img_dir fs (s : str) fs',
     process fromstring writable zipf false img_dir fs = (Ok s, fs') -> trimmed s)
  /\ (forall fromstring writable zipf img_dir fs (segs : list str) fs',
        process fromstring writable zipf true img_dir fs = (Ok segs, fs') ->
        Forall trimmed segs)
  /\ (forall text_ : list str,
        finish true text_ = Str.strip <$> strip_list text_
        /\ no_empty_ends (strip_list text_))
  /\ xml2text_tree blank_first_page_doc true = Ok [[nl; nl]; nl :: nl :: lit "B"]
  /\ (forall fromstring writable xml img_dir fs,
        fromstring xml = Ok blank_first_page_doc ->
        process fromstring writable [(doc_xml, xml)] true img_dir fs = (Ok [[]; lit "B"], fs))
  /\ ~ no_empty_ends [[]; lit "B"].
Proof.
  split; [|split; [|split; [|split; [|split]]]].
  - intros fromstring writable zipf img_dir fs s fs' H.
    destruct (process_finish _ _ _ _ _ _ _ _ H) as [text_ ->]. apply strip_trimmed.
  - intros fromstring writable zipf img_dir fs segs fs' H.
    destruct (process_finish _ _ _ _ _ _ _ _ H) as [text_ ->].
    cbn [finish]. apply Forall_fmap, Forall_forall. intros s _. apply strip_trimmed.
  - intros text_. split; [reflexivity|].
    destruct (strip_list_decompose text_) as (_ & _ & _ & _ & _ & H). exact H.
  - reflexivity.
  - intros fromstring writable xml img_dir fs Hparse.
    rewrite (process_one_part fromstring writable xml blank_first_page_doc true img_dir fs Hparse).
    reflexivity.
  - intros [Hhd _]. apply (Hhd []); reflexivity.
Qed.

Lemma can_write_spec writable d names :
  can_write writable d names = true
  <-> forall n, n ∈ names -> (Path.splitext n).2 ∈ image_extensions ->
                writable (Path.join d (Path.basename n)) = true.
Proof.
  unfold can_write. rewrite forallb_forall. split.
  - intros H n Hn Himg. specialize (H n (proj1 (list_elem_of_In _ _) Hn)).
    unfold is_image in H. rewrite bool_decide_eq_true_2 in H by exact Himg. exact H.
  - intros H n Hn. destruct (is_image n) eqn:Himg; [|reflexivity].
    apply bool_decide_eq_true_1 in Himg. cbn [negb orb].
    apply H; [apply list_elem_of_In; exact Hn | exact Himg].
Qed.



(** ** [re.match]: the matcher against the meaning of the expressions *)

Lemma matches_nil_nullable r s : Re.matches r s -> s = [] -> Re.nullable r = true.
Proof.
  induction 1 as [| | | |r1 r2 s1 s2 _ IH1 _ IH2|r1 r2 s _ IH|r1 r2 s _ IH| |];
    intros Hs; try discriminate; cbn [Re.nullable]; try reflexivity.
  - apply app_eq_nil in Hs as [-> ->]. rewrite IH1, IH2; reflexivity.
  - rewrite IH by assumption. reflexivity.
  - rewrite IH by assumption. apply orb_true_r.
Qed.

Lemma nullable_matches_nil r : Re.nullable r = true -> Re.matches r [].
Proof.
  induction r as [| | | | |r1 IH1 r2 IH2|r1 IH1 r2 IH2|r IH]; cbn [Re.nullable];
    intros H; try discriminate.
  - constructor.
  - apply andb_true_iff in H as [H1 H2].
    change (@nil ascii) with (@nil ascii ++ []). constructor; auto.
  - apply orb_true_iff in H as [H|H]; [apply Re.m_alt_l | apply Re.m_alt_r]; auto.
  - constructor.
Qed.

Lemma deriv_sound c r : forall s, Re.matches (Re.deriv c r) s -> Re.matches r (c :: s).
Proof.
  induction r as [| |d|lo hi| |r1 IH1 r2 IH2|r1 IH1 r2 IH2|r IH]; cbn [Re.deriv]; intros s H.
  - inversion H.
  - inversion H.
  - destruct (decide (d = c)) as [->|]; inversion H; subst. constructor.
  - destruct (Re.in_range lo hi c) eqn:E; inversion H; subst. constructor; exact E.
  - destruct (Re.dot_accepts c) eqn:E; inversion H; subst. constructor; exact E.
  - destruct (Re.nullable r1) eqn:E.
    + inversion H as [| | | | |? ? ? H'|? ? ? H'| |]; subst.
      * inversion H'; subst. change (c :: s1 ++ s2) with ((c :: s1) ++ s2).
        constructor; auto.
      * change (c :: s) with ([] ++ c :: s). constructor; auto.
        apply nullable_matches_nil; exact E.
    + inversion H; subst. change (c :: s1 ++ s2) with ((c :: s1) ++ s2).
      constructor; auto.
  - inversion H; subst; [apply Re.m_alt_l | apply Re.m_alt_r]; auto.
  - inversion H; subst. change (c :: s1 ++ s2) with ((c :: s1) ++ s2).
    constructor; auto.
Qed.

Lemma deriv_complete c r s' :
  Re.matches r s' -> forall s, s' = c :: s -> Re.matches (Re.deriv c r) s.
Proof.
  induction 1 as [|d|lo hi d Hd|d Hd|r1 r2 s1 s2 H1 IH1 H2 IH2|r1 r2 s0 _ IH|r1 r2 s0 _ IH
                  |r|r s1 s2 H1 IH1 H2 IH2];
    intros s Hs; cbn [Re.deriv].
  - discriminate.
  - injection Hs as -> <-. rewrite decide_True by reflexivity. constructor.
  - injection Hs as -> <-. rewrite Hd. constructor.
  - injection Hs as -> <-. rewrite Hd. constructor.
  - destruct s1 as [|c1 s1].
    + rewrite (matches_nil_nullable r1 [] H1 eq_refl).
      apply Re.m_alt_r. apply IH2. exact Hs.
    + injection Hs as -> <-.
      assert (Hcat : Re.matches (Re.Cat (Re.deriv c r1) r2) (s1 ++ s2))
        by (constructor; auto).
      destruct (Re.nullable r1); [apply Re.m_alt_l|]; exact Hcat.
  - apply Re.m_alt_l. auto.
  - apply Re.m_alt_r. auto.
  - discriminate.
  - destruct s1 as [|c1 s1].
    + apply (IH2 s Hs).
    + injection Hs as -> <-. constructor; auto.
Qed.

(** [Re.match_] answers whether a prefix of the string matches. *)
Lemma match_spec r s :
  Re.match_ r s = true <-> exists p rest, s = p ++ rest /\ Re.matches r p.
Proof.
  revert r. induction s as [|c s IH]; intros r; cbn [Re.match_].
  - rewrite orb_false_r. split.
    + intros H. exists [], []. split; [reflexivity|]. apply nullable_matches_nil; exact H.
    + intros (p & rest & Hs & Hm). symmetry in Hs. apply app_eq_nil in Hs as [-> _].
      exact (matches_nil_nullable r [] Hm eq_refl).
  - rewrite orb_true_iff, IH. split.
    + intros [H|(p & rest & -> & Hm)].
      * exists [], (c :: s). split; [reflexivity|]. apply nullable_matches_nil; exact H.
      * exists (c :: p), rest. split; [reflexivity|]. apply deriv_sound; exact Hm.
    + intros (p & rest & Hs & Hm). destruct p as [|c' p].
      * left. exact (matches_nil_nullable r [] Hm eq_refl).
      * injection Hs as <- ->. right. exists p, rest. split; [reflexivity|].
        exact (deriv_complete c r (c :: p) Hm p eq_refl).
Qed.

(** ** The patterns of the header and footer parts *)

Lemma digit_chars c : digit c <-> c ∈ lit "0123456789".
Proof.
  unfold digit. split.
  - destruct c as [[] [] [] [] [] [] [] []]; vm_compute; intros H;
      try discriminate; repeat (first [left | right]).
  - intros H. vm_compute in H.
    repeat (apply elem_of_cons in H as [->|H]; [reflexivity|]). inversion H.
Qed.

Lemma dot_accepts_spec c : Re.dot_accepts c = true <-> c <> nl.
Proof.
  unfold Re.dot_accepts. rewrite negb_true_iff, bool_decide_eq_false. reflexivity.
Qed.

Lemma matches_literal p s : Re.matches (Re.literal p) s <-> s = p.
Proof.
  split.
  - revert s. induction p as [|c p IH]; cbn [Re.literal]; intros s H.
    + inversion H. reflexivity.
    + inversion H as [| | | |? ? s1 s2 H1 H2| | | |]; subst.
      inversion H1; subst. cbn. f_equal. apply IH. exact H2.
  - intros ->. induction p as [|c p IH]; cbn [Re.literal]; [constructor|].
    change (c :: p) with ([c] ++ p). constructor; [constructor | exact IH].
Qed.

Lemma matches_star_range lo hi s :
  Re.matches (Re.Star (Re.Range lo hi)) s
  <-> Forall (fun c => Re.in_range lo hi c = true) s.
Proof.
  split.
  - intros H. remember (Re.Star (Re.Range lo hi)) as r eqn:Hr.
    induction H as [| | | | | | | |r s1 s2 H1 _ H2 IH2]; try discriminate.
    + constructor.
    + injection Hr as ->. inversion H1; subst.
      constructor; [assumption|]. apply IH2. reflexivity.
  - induction 1 as [|c s Hc _ IH]; [constructor|].
    change (c :: s) with ([c] ++ s). constructor; [constructor; exact Hc | exact IH].
Qed.

(** The strings the pattern of a part matches from end to end: after the
    prefix and the digits, any one character but the newline, then [xml]. *)
Lemma matches_part_pattern prefix p :
  Re.matches (part_pattern prefix) p
  <-> exists ds c, p = prefix ++ ds ++ c :: lit "xml" /\ Forall digit ds /\ c <> nl.
Proof.
  unfold part_pattern. split.
  - intros H.
    inversion H as [| | | |? ? s1 s2 H1 H2| | | |]; subst.
    inversion H2 as [| | | |? ? s3 s4 H3 H4| | | |]; subst.
    inversion H4 as [| | | |? ? s5 s6 H5 H6| | | |]; subst.
    apply matches_literal in H1 as ->. apply (matches_literal (lit "xml")) in H6 as ->.
    apply matches_star_range in H3. inversion H5 as [| | |c Hc| | | | |]; subst.
    exists s3, c. split; [reflexivity|]. split; [exact H3|].
    apply dot_accepts_spec. exact Hc.
  - intros (ds & c & -> & Hds & Hc).
    constructor; [apply matches_literal; reflexivity|].
    constructor; [apply matches_star_range; exact Hds|].
    change (c :: lit "xml") with ([c] ++ lit "xml").
    constructor; [constructor; apply dot_accepts_spec; exact Hc|].
    apply matches_literal. reflexivity.
Qed.

(** C7. [re.match] with the pattern [word/header[0-9]*.xml] selects more
    than the names made of the prefix, digits, [.xml] and nothing else:
    the dot of the pattern stands for any character but the newline, and
    the match need not reach the end of the name. The names selected are
    exactly those that start with the prefix, digits or none, one such
    character and [xml]. So [word/header1.xml.rels], [word/header1-xml]
    and, for the footers, [word/footer2.xmlx] are selected, and an entry of such a name is
    read as a header part. *)
Theorem part_pattern_selects_more_names :
  (forall prefix s,
     Re.match_ (part_pattern prefix) s = true
     <-> exists ds c rest,
           s = prefix ++ ds ++ c :: lit "xml" ++ rest /\ Forall digit ds /\ c <> nl)
  /\ (forall prefix s, part_name prefix s -> Re.match_ (part_pattern prefix) s = true)
  /\ Re.match_ header_xmls (lit "word/header1.xml.rels") = true
  /\ ~ part_name (lit "word/header") (lit "word/header1.xml.rels")
  /\ Re.match_ header_xmls (lit "word/header1-xml") = true
  /\ ~ part_name (lit "word/header") (lit "word/header1-xml")
  /\ Re.match_ footer_xmls (lit "word/footer2.xmlx") = true
  /\ ~ part_name (lit "word/footer") (lit "word/footer2.xmlx")
  /\ (forall fromstring writable h d img_dir fs,
        fromstring h = Ok header_H1 ->
        fromstring d = Ok document_BODY ->
        process fromstring writable [(lit "word/header1.xml.rels", h); (doc_xml, d)]
          false img_dir fs
        = (Ok (lit "H1" ++ [nl; nl] ++ lit "BODY"), fs)).
Proof.
  assert (Hchar : forall prefix s,
            Re.match_ (part_pattern prefix) s = true
            <-> exists ds c rest,
                  s = prefix ++ ds ++ c :: lit "xml" ++ rest /\ Forall digit ds /\ c <> nl).
  { intros prefix s. rewrite match_spec. split.
    - intros (p & rest & -> & Hm). apply matches_part_pattern in Hm as (ds & c & -> & Hds & Hc).
      exists ds, c, rest. split; [|auto]. rewrite <- !app_assoc. reflexivity.
    - intros (ds & c & rest & -> & Hds & Hc).
      exists (prefix ++ ds ++ c :: lit "xml"), rest. split.
      + rewrite <- !app_assoc. reflexivity.
      + apply matches_part_pattern. exists ds, c. auto. }
  assert (Hnot : forall prefix s n,
            length s = (length prefix + n + 4)%nat ->
            take 4 (drop (length prefix + n) s) <> lit ".xml" ->
            (forall ds, s = prefix ++ ds ++ lit ".xml" -> length ds = n) ->
            ~ part_name prefix s).
  { intros prefix s n Hlen Hext Hn (ds & Hs & _). apply Hext.
    specialize (Hn ds Hs). subst n s.
    rewrite app_assoc, drop_app_length' by (rewrite length_app; reflexivity).
    reflexivity. }
  assert (Hlen : forall (prefix s ds : str) n,
            length s = (length prefix + n + 4)%nat ->
            s = prefix ++ ds ++ lit ".xml" -> length ds = n).
  { intros prefix s ds n Hl Hs. rewrite Hs, !length_app in Hl.
    change (length (lit ".xml")) with 4%nat in Hl. lia. }
  split; [exact Hchar|]. split.
  { intros prefix s (ds & -> & Hds). apply Hchar.
    exists ds, "."%char, []. split; [reflexivity|]. split; [exact Hds|discriminate]. }
  split; [reflexivity|]. split.
  { apply (Hnot _ _ 6%nat); [reflexivity|discriminate|]. intros ds. apply Hlen. reflexivity. }
  split; [reflexivity|]. split.
  { apply (Hnot _ _ 1%nat); [reflexivity|discriminate|]. intros ds. apply Hlen. reflexivity. }
  split; [reflexivity|]. split.
  { apply (Hnot _ _ 2%nat); [reflexivity|discriminate|]. intros ds. apply Hlen. reflexivity. }
  intros fromstring writable h d img_dir fs Hh Hd.
  rewrite process_assembles, no_images_written by reflexivity.
  set (zipf := [(lit "word/header1.xml.rels", h); (doc_xml, d)]).
  change (part_names zipf) with [lit "word/header1.xml.rels"; doc_xml].
  cbn [map_result]. unfold part_text, xml2text.
  change (read zipf (lit "word/header1.xml.rels")) with (Ok h).
  change (read zipf doc_xml) with (Ok d). cbn [mbind Result_bind].
  rewrite Hh, Hd. reflexivity.
Qed.

(** ** The examples, on archives *)

Lemma xml2text_split_drops_trailing_text_example :
  process example_fromstring all_writable [(doc_xml, hello_xml)] true None ∅ = (Ok [], ∅)
  /\ process example_fromstring all_writable [(doc_xml, hello_xml)] false None ∅
     = (Ok (lit "Hello"), ∅).
Proof.
  split; [|reflexivity].
  destruct xml2text_split_drops_trailing_text as (_ & _ & _ & _ & _ & _ & _ & H).
  exact (H example_fromstring all_writable hello_xml None ∅ eq_refl).
Defined.

Lemma xml2text_bare_break_raises_example :
  xml2text example_fromstring line_break_xml true = Raise IndexError
  /\ process example_fromstring all_writable [(doc_xml, line_break_xml)] true None ∅
     = (Raise IndexError, ∅)
  /\ process example_fromstring all_writable [(doc_xml, line_break_xml)] false None ∅
     = (Ok (lit "a" ++ nl :: lit "b"), ∅).
Proof.
  destruct xml2text_bare_break_raises as (Hiff & _).
  assert (H : xml2text_tree line_break_doc true = Raise IndexError).
  { apply Hiff. exists (w_br []). split; [|split; reflexivity].
    cbn. do 5 right. left. }
  split; [exact H|]. split; [|reflexivity].
  rewrite (process_one_part example_fromstring all_writable line_break_xml line_break_doc true None ∅ eq_refl).
  rewrite H. reflexivity.
Defined.

Lemma process_split_keeps_blank_end_segments_example :
  process example_fromstring all_writable [(doc_xml, blank_first_page_xml)] true None ∅
  = (Ok [[]; lit "B"], ∅).
Proof.
  destruct process_split_keeps_blank_end_segments as (_ & _ & _ & _ & H & _).
  exact (H example_fromstring all_writable blank_first_page_xml None ∅ eq_refl).
Defined.

Lemma process_part_order_example :
  process example_fromstring all_writable
    [(lit "word/footer1.xml", footer_xml); (doc_xml, body_xml);
     (lit "word/header1.xml", header_xml)]
    false None ∅
  = (Ok (lit "H1" ++ [nl; nl] ++ lit "BODY" ++ [nl; nl] ++ lit "F1"), ∅).
Proof.
  destruct process_part_order as (_ & H).
  exact (proj2 (H example_fromstring all_writable header_xml body_xml footer_xml None ∅
                  eq_refl eq_refl eq_refl)).
Defined.

Lemma process_missing_document_example :
  (doc_xml ∉ namelist headers_only_zip)
  /\ process example_fromstring all_writable headers_only_zip false None ∅
     = (Raise KeyError, ∅)
  /\ process example_fromstring all_writable headers_only_zip true None ∅
     = (Raise KeyError, ∅).
Proof.
  assert (Habsent : doc_xml ∉ namelist headers_only_zip).
  { intros H. apply list_elem_of_singleton in H. discriminate H. }
  split; [exact Habsent|]. split.
  - exact (proj2 (process_missing_document example_fromstring all_writable headers_only_zip false
                    None ∅ Habsent) _ eq_refl).
  - exact (proj2 (process_missing_document example_fromstring all_writable headers_only_zip true
                    None ∅ Habsent) _ eq_refl).
Defined.

Lemma part_pattern_selects_more_names_example :
  process example_fromstring all_writable
    [(lit "word/header1.xml.rels", header_xml); (doc_xml, body_xml)] false None ∅
  = (Ok (lit "H1" ++ [nl; nl] ++ lit "BODY"), ∅).
Proof.
  destruct part_pattern_selects_more_names as (_ & _ & _ & _ & _ & _ & _ & _ & H).
  exact (H example_fromstring all_writable header_xml body_xml None ∅ eq_refl eq_refl).
Defined.

Lemma paragraph_marker_precedes_text_example :
  process example_fromstring all_writable [(doc_xml, hello_xml)] false (Some (lit "out")) ∅
  = (Ok (lit "Hello"), ∅).
Proof.
  destruct paragraph_marker_precedes_text as (_ & _ & _ & _ & H).
  exact (H example_fromstring all_writable hello_xml (Some (lit "out")) ∅ eq_refl).
Defined.


(** * Further properties of the source *)

(** ** [qn] *)

Lemma split_no_sep sep s : sep ∉ s -> Str.split sep s = [s].
Proof.
  induction s as [|c s IH]; intros Hn; cbn [Str.split]; [reflexivity|].
  apply not_elem_of_cons in Hn as [Hne Hn].
  rewrite decide_False by congruence. rewrite IH by assumption. reflexivity.
Qed.

Lemma split_at_sep sep a b :
  sep ∉ a -> Str.split sep (a ++ sep :: b) = a :: Str.split sep b.
Proof.
  induction a as [|c a IH]; intros Hn; cbn [app Str.split].
  - rewrite decide_True by reflexivity. reflexivity.
  - apply not_elem_of_cons in Hn as [Hne Hn].
    rewrite decide_False by congruence. rewrite IH by assumption. reflexivity.
Qed.

Lemma split_length sep s :
  length (Str.split sep s) = S (length (List.filter (fun c => bool_decide (c = sep)) s)).
Proof.
  induction s as [|c s IH]; cbn [Str.split List.filter]; [reflexivity|].
  destruct (decide (c = sep)) as [->|Hne].
  - rewrite bool_decide_eq_true_2 by reflexivity. cbn [length]. rewrite IH. reflexivity.
  - rewrite bool_decide_eq_false_2 by assumption.
    destruct (Str.split sep s) as [|w ws]; [discriminate IH|]. exact IH.
Qed.

#[local] Transparent qn.

Lemma qn_unfold t :
  qn t = match Str.split ":" t with
         | [prefix; tagroot] =>
             if decide (prefix = lit "w")
             then Ok (lit "{http://schemas.openxmlformats.org/wordprocessingml/2006/main}"
                      ++ tagroot)
             else Raise KeyError
         | _ => Raise ValueError
         end.
Proof.
  unfold qn. destruct (Str.split ":" t) as [|prefix [|tagroot [|x rest]]]; try reflexivity.
  unfold nsmap, dict_get.
  destruct (decide (lit "w" = prefix)) as [<-|Hne].
  - rewrite decide_True by reflexivity. reflexivity.
  - rewrite decide_False by congruence. reflexivity.
Qed.

#[global] Opaque qn.

Lemma split_one sep s r : Str.split sep s = [r] -> s = r /\ (sep ∉ r).
Proof.
  revert r. induction s as [|c s IH]; intros r; cbn [Str.split].
  - intros [= <-]. split; [reflexivity | apply not_elem_of_nil].
  - destruct (decide (c = sep)) as [->|Hne].
    + intros [= _ H]. pose proof (split_length sep s) as Hl. rewrite H in Hl. discriminate.
    + destruct (Str.split sep s) as [|w ws] eqn:E.
      * pose proof (split_length sep s) as Hl. rewrite E in Hl. discriminate.
      * intros [= <- ->]. destruct (IH w eq_refl) as [-> Hn].
        split; [reflexivity|]. apply not_elem_of_cons. split; [congruence | exact Hn].
Qed.

Lemma split_two sep s p r :
  Str.split sep s = [p; r] -> s = p ++ sep :: r /\ (sep ∉ p) /\ (sep ∉ r).
Proof.
  revert p. induction s as [|c s IH]; intros p; cbn [Str.split]; [discriminate|].
  destruct (decide (c = sep)) as [->|Hne].
  - intros [= <- H]. apply split_one in H as [-> Hn].
    split; [reflexivity|]. split; [apply not_elem_of_nil | exact Hn].
  - destruct (Str.split sep s) as [|w ws] eqn:E; [discriminate|].
    intros [= <- ->]. destruct (IH w eq_refl) as (-> & Hp & Hr).
    split; [reflexivity|]. split; [|exact Hr].
    apply not_elem_of_cons. split; [congruence | exact Hp].
Qed.

(** X1. [qn] returns a qualified name exactly for the tag names [w:root]
    with no colon in [root], and then the namespace URI in braces followed
    by [root]; on a name whose number of colons is not one the tuple
    unpacking raises [ValueError], and on a prefix other than [w] the
    look-up in [nsmap] raises [KeyError]. Two tag names with one qualified
    name are equal. *)
Theorem qn_qualifies_w_tags :
  (forall t q,
     qn t = Ok q
     <-> exists tagroot,
           t = lit "w:" ++ tagroot /\ (":"%char ∉ tagroot)
           /\ q = lit "{http://schemas.openxmlformats.org/wordprocessingml/2006/main}"
                  ++ tagroot)
  /\ (forall t, qn t = Raise ValueError <-> colons t <> 1%nat)
  /\ (forall prefix tagroot,
        (":"%char ∉ prefix) -> (":"%char ∉ tagroot) -> prefix <> lit "w" ->
        qn (prefix ++ ":"%char :: tagroot) = Raise KeyError)
  /\ (forall t1 t2 q, qn t1 = Ok q -> qn t2 = Ok q -> t1 = t2).
Proof.
  assert (Hok : forall t q,
            qn t = Ok q
            <-> exists tagroot,
                  t = lit "w:" ++ tagroot /\ (":"%char ∉ tagroot)
                  /\ q = lit "{http://schemas.openxmlformats.org/wordprocessingml/2006/main}"
                         ++ tagroot).
  { intros t q. rewrite qn_unfold. split.
    - destruct (Str.split ":" t) as [|prefix [|tagroot [|x rest]]] eqn:E; try discriminate.
      destruct (decide (prefix = lit "w")) as [->|]; [|discriminate].
      intros [= <-]. apply split_two in E as (-> & _ & Hr).
      exists tagroot. auto.
    - intros (tagroot & -> & Hr & ->).
      change (lit "w:" ++ tagroot) with (lit "w" ++ ":"%char :: tagroot).
      rewrite split_at_sep by (intros H; apply list_elem_of_singleton in H; discriminate).
      rewrite split_no_sep by assumption. rewrite decide_True by reflexivity. reflexivity. }
  split; [exact Hok|]. split; [|split].
  - intros t. rewrite qn_unfold. unfold colons.
    pose proof (split_length ":" t) as Hl.
    destruct (Str.split ":" t) as [|prefix [|tagroot [|x rest]]]; cbn [length] in Hl.
    + discriminate.
    + split; [lia|reflexivity].
    + destruct (decide (prefix = lit "w")); split; (discriminate || lia).
    + split; [lia|reflexivity].
  - intros prefix tagroot Hp Hr Hne. rewrite qn_unfold.
    rewrite split_at_sep, split_no_sep by assumption.
    rewrite decide_False by assumption. reflexivity.
  - intros t1 t2 q H1 H2. apply Hok in H1 as (r1 & -> & _ & ->).
    apply Hok in H2 as (r2 & -> & _ & Hq). apply app_inv_head in Hq as ->. reflexivity.
Qed.

(** ** The two modes of [xml2text] *)

Lemma page_break_contribution child :
  page_break child = true -> contribution child = [nl].
Proof.
  unfold page_break, contribution. intros H. apply andb_true_iff in H as [Ht _].
  apply bool_decide_eq_true_1 in Ht. rewrite Ht.
  rewrite (decide_False (P := W "br" = W "t")) by discriminate.
  rewrite (decide_False (P := W "br" = W "tab")) by discriminate.
  rewrite decide_True by (left; reflexivity). reflexivity.
Qed.

Lemma rejoin_split_step xs st :
  rejoin (foldl split_step st xs) = rejoin st ++ concat (contribution <$> xs).
Proof.
  revert st. induction xs as [|x xs IH]; intros [texts text_];
    cbn [foldl fmap list_fmap concat].
  - rewrite app_nil_r. reflexivity.
  - rewrite IH. unfold split_step; cbn [fst snd].
    destruct (page_break x) eqn:Hp; unfold rejoin; cbn [fst snd].
    + rewrite (page_break_contribution x Hp).
      rewrite fmap_app, concat_app. cbn [fmap list_fmap concat].
      rewrite !app_nil_r, <- !app_assoc. reflexivity.
    + rewrite <- !app_assoc. reflexivity.
Qed.

(** X2. The two modes agree on the text: when the split-mode loop ends
    with the segments [texts] and the accumulator [text_], non-split
    [xml2text] returns the segments, each followed by one newline (what a
    page break adds in that mode), followed by [text_]. So the text
    after the last page break, which split mode does not return, is the
    rest of the non-split text after the returned segments. *)
Theorem xml2text_modes_agree root texts text_ :
  walk true root = Ok (texts, text_) ->
  xml2text_tree root true = Ok texts
  /\ xml2text_tree root false
     = Ok (concat ((fun seg => seg ++ [nl]) <$> texts) ++ text_).
Proof.
  unfold walk. rewrite walk_true_from.
  destruct (existsb bare_break (iter root)) eqn:Hb; [discriminate|].
  intros [= Hst]. split.
  - rewrite xml2text_tree_true, Hb, Hst. reflexivity.
  - rewrite xml2text_tree_false.
    pose proof (rejoin_split_step (iter root) ([], [])) as H.
    rewrite Hst in H. unfold rejoin in H; cbn [fst snd fmap list_fmap concat app] in H.
    rewrite H. reflexivity.
Qed.

Lemma xml2text_modes_agree_example :
  xml2text_tree two_page_doc true = Ok [nl :: nl :: lit "A"]
  /\ xml2text_tree two_page_doc false = Ok (nl :: nl :: lit "A" ++ nl :: lit "B").
Proof.
  exact (xml2text_modes_agree two_page_doc [nl :: nl :: lit "A"] (lit "B") eq_refl).
Defined.

(** ** The text [xml2text] reads *)

Lemma Element_forall_ind (P : Element -> Prop) :
  (forall t a x y cs, Forall P cs -> P (Elem t a x y cs)) ->
  forall e, P e.
Proof.
  intros Hstep. fix IH 1. intros [t a x y cs]. apply Hstep.
  induction cs as [|c cs IHcs]; constructor; [apply IH | exact IHcs].
Qed.

Lemma iter_text_runs_only e :
  iter (text_runs_only e) = text_runs_only <$> iter e.
Proof.
  induction e as [t a x y cs IH] using Element_forall_ind.
  cbn [text_runs_only iter fmap list_fmap]. f_equal.
  induction IH as [|c cs Hc _ IHcs]; cbn [fmap list_fmap flat_map]; [reflexivity|].
  rewrite fmap_app, <- Hc. f_equal. exact IHcs.
Qed.

Lemma visit_text_runs_only split_pages st e :
  visit split_pages st (text_runs_only e) = visit split_pages st e.
Proof.
  destruct st as [texts text_]. destruct e as [t a x y cs].
  rewrite !visit_unfold. unfold is_page_break, first_value, contribution.
  cbn [text_runs_only tag attrib text].
  destruct (decide (t = W "t")) as [Ht|Ht]; reflexivity.
Qed.

Lemma walk_text_runs_only split_pages xs st :
  for_each (visit split_pages) (text_runs_only <$> xs) st
  = for_each (visit split_pages) xs st.
Proof.
  revert st. induction xs as [|x xs IH]; intros st; cbn [fmap list_fmap for_each];
    [reflexivity|].
  rewrite visit_text_runs_only.
  destruct (visit split_pages st x); cbn [mbind Result_bind]; [apply IH | reflexivity].
Qed.

(** X3. Only the text of [w:t] elements is read: removing the [text] of
    every other element and the [tail] of every element from a tree
    changes neither what [xml2text] returns nor whether it raises, in
    either mode. Text that stands in the XML outside of [w:t] elements
    never reaches the output: a paragraph with text before its run, after
    its run and after its [w:t] element gives the text of the [w:t]
    element only. *)
Theorem xml2text_reads_text_runs_only :
  (forall root split_pages,
     xml2text_tree (text_runs_only root) split_pages = xml2text_tree root split_pages)
  /\ xml2text_tree
       (Elem (W "p") [] (Some (lit "lead")) None
          [Elem (W "r") [] None (Some (lit "after the run"))
             [Elem (W "t") [] (Some (lit "x")) (Some (lit "after the text")) []]])
       false
     = Ok (nl :: nl :: lit "x").
Proof.
  split; [|reflexivity].
  intros root split_pages. unfold xml2text_tree, walk.
  rewrite iter_text_runs_only, walk_text_runs_only. reflexivity.
Qed.

(** ** [strip_list], again *)

Lemma pop_leading_fixed lst :
  (forall x, head lst = Some x -> x <> []) -> pop_leading lst = lst.
Proof.
  destruct lst as [|x lst]; intros H; cbn [pop_leading]; [reflexivity|].
  rewrite bool_decide_eq_false_2 by (apply H; reflexivity). reflexivity.
Qed.

Lemma pop_trailing_fixed fuel lst :
  (forall x, last lst = Some x -> x <> []) -> pop_trailing fuel lst = lst.
Proof.
  destruct fuel as [|fuel]; intros H; cbn [pop_trailing]; [reflexivity|].
  destruct (last lst) as [x|] eqn:E; [|reflexivity].
  rewrite bool_decide_eq_false_2 by (apply H; reflexivity). reflexivity.
Qed.

Lemma filter_all_empty (lst : list str) :
  Forall (fun x => x = []) lst -> filter (fun x => x <> []) lst = [].
Proof.
  induction 1 as [|x lst Hx _ IH]; [reflexivity|].
  rewrite filter_cons, decide_False by (intros H; apply H; exact Hx). exact IH.
Qed.

(** X4. [strip_list] returns a list unchanged exactly when the list has
    no empty element at either end, and applying it twice is applying it
    once. *)
Theorem strip_list_idempotent :
  (forall lst : list str, strip_list lst = lst <-> no_empty_ends lst)
  /\ (forall lst : list str, strip_list (strip_list lst) = strip_list lst).
Proof.
  assert (Hfix : forall lst : list str, strip_list lst = lst <-> no_empty_ends lst).
  { intros lst. split.
    - intros H. destruct (strip_list_decompose lst) as (_ & _ & _ & _ & _ & Hends).
      rewrite H in Hends. exact Hends.
    - intros [Hhd Hlast]. unfold strip_list.
      rewrite pop_trailing_fixed by exact Hlast. apply pop_leading_fixed. exact Hhd. }
  split; [exact Hfix|]. intros lst. apply Hfix.
  destruct (strip_list_decompose lst) as (_ & _ & _ & _ & _ & Hends). exact Hends.
Qed.

(** X5. [strip_list] loses no element that is not empty: the elements
    that are not empty are the same, in the same order, before and after;
    the result is never longer than the list, and every element of the
    result is an element of the list. *)
Theorem strip_list_keeps_content :
  forall lst : list str,
    filter (fun x => x <> []) (strip_list lst) = filter (fun x => x <> []) lst
    /\ (length (strip_list lst) <= length lst)%nat
    /\ (forall x, x ∈ strip_list lst -> x ∈ lst).
Proof.
  intros lst.
  destruct (strip_list_decompose lst) as (pre & post & Hdec & Hpre & Hpost & _).
  split; [|split].
  - rewrite Hdec at 2. rewrite !filter_app.
    rewrite (filter_all_empty pre Hpre), (filter_all_empty post Hpost), app_nil_r.
    reflexivity.
  - rewrite Hdec at 2. rewrite !length_app. lia.
  - intros x Hx. rewrite Hdec. rewrite !elem_of_app. right; left. exact Hx.
Qed.

(** ** When [process] returns and what it raises *)

Lemma map_result_ok {A B} (f : A -> Result B) xs :
  (exists ys, map_result f xs = Ok ys) <-> (forall x, x ∈ xs -> exists y, f x = Ok y).
Proof.
  induction xs as [|x xs IH]; cbn [map_result].
  - split; [intros _ x Hx; inversion Hx | intros _; eexists; reflexivity].
  - split.
    + intros [ys H] x' Hx'. destruct (f x) as [y|e] eqn:Hfx; [|discriminate].
      cbn [mbind Result_bind] in H.
      destruct (map_result f xs) as [ys'|e] eqn:Hxs; [|discriminate].
      apply elem_of_cons in Hx' as [->|Hx']; [eexists; exact Hfx|].
      apply IH; [eexists; reflexivity | exact Hx'].
    + intros H. destruct (H x) as [y Hy]; [left|]. rewrite Hy.
      destruct (proj2 IH) as [ys Hys]; [intros x' Hx'; apply H; right; exact Hx'|].
      rewrite Hys. eexists; reflexivity.
Qed.

Lemma map_result_raise {A B} (f : A -> Result B) xs e :
  map_result f xs = Raise e -> exists x, x ∈ xs /\ f x = Raise e.
Proof.
  induction xs as [|x xs IH]; cbn [map_result]; [discriminate|].
  destruct (f x) as [y|e'] eqn:Hfx; cbn [mbind Result_bind].
  - destruct (map_result f xs) as [ys|e'] eqn:Hxs; [discriminate|].
    intros [= ->]. destruct (IH eq_refl) as (x' & Hx' & Hf).
    exists x'. split; [right; exact Hx' | exact Hf].
  - intros [= ->]. exists x. split; [left | exact Hfx].
Qed.

Lemma read_raises zipf name e : read zipf name = Raise e -> e = KeyError.
Proof.
  induction zipf as [|[n data] zipf IH]; [intros [= <-]; reflexivity|].
  rewrite read_cons. destruct (read zipf name); [discriminate|].
  destruct (decide (n = name)); [discriminate|]. intros [= <-]. reflexivity.
Qed.

Lemma part_names_read zipf n :
  doc_xml ∈ namelist zipf -> n ∈ part_names zipf -> exists xml, read zipf n = Ok xml.
Proof.
  intros Hdoc Hn.
  assert (Hin : n ∈ namelist zipf).
  { unfold part_names in Hn. rewrite !elem_of_app in Hn.
    destruct Hn as [Hn|[Hn|Hn]].
    - apply list_elem_of_In, filter_In in Hn as [Hn _]. apply list_elem_of_In. exact Hn.
    - apply list_elem_of_singleton in Hn as ->. exact Hdoc.
    - apply list_elem_of_In, filter_In in Hn as [Hn _]. apply list_elem_of_In. exact Hn. }
  destruct (read_present zipf n Hin) as (xml & Hread & _). exists xml. exact Hread.
Qed.

Lemma xml2text_tree_no_bare_break root split_pages (y : Text split_pages) :
  xml2text_tree root split_pages = Ok y ->
  split_pages = true -> existsb bare_break (iter root) = false.
Proof.
  destruct split_pages; [|discriminate]. rewrite xml2text_tree_true.
  destruct (existsb bare_break (iter root)); [discriminate|reflexivity].
Qed.

(** X6. What a call of [process] that returns guarantees: the archive has
    the entry [word/document.xml]; every part the call reads (the selected
    headers, the document, the selected footers) is an entry whose bytes the
    parser accepted; in split mode none of the parsed trees holds a [w:br]
    without attributes; and with an image directory the path of every
    image entry could be opened for writing. *)
Theorem process_returns_only_if fromstring writable zipf split_pages img_dir fs r fs' :
  process fromstring writable zipf split_pages img_dir fs = (Ok r, fs') ->
  doc_xml ∈ namelist zipf
  /\ (forall n, n ∈ part_names zipf ->
        exists xml root,
          read zipf n = Ok xml /\ fromstring xml = Ok root
          /\ (split_pages = true ->
              ~ exists child, child ∈ iter root /\ tag child = W "br" /\ attrib child = []))
  /\ (forall d n, img_dir = Some d -> n ∈ namelist zipf ->
                  (Path.splitext n).2 ∈ image_extensions ->
                  writable (Path.join d (Path.basename n)) = true).
Proof.
  intros Hproc. rewrite process_assembles, extract_images_ok in Hproc.
  destruct (map_result _ _) as [parts|e] eqn:Hparts; [|discriminate].
  assert (Hall := proj1 (map_result_ok _ _) (ex_intro _ parts Hparts)).
  assert (Hpart : forall n, n ∈ part_names zipf ->
            exists xml root,
              read zipf n = Ok xml /\ fromstring xml = Ok root
              /\ (split_pages = true ->
                  ~ exists child, child ∈ iter root /\ tag child = W "br"
                                  /\ attrib child = [])).
  { intros n Hn. destruct (Hall n Hn) as [y Hy]. unfold part_text, xml2text in Hy.
    destruct (read zipf n) as [xml|e] eqn:Hread; cbn [mbind Result_bind] in Hy;
      [|discriminate].
    destruct (fromstring xml) as [root|e] eqn:Hroot; cbn [mbind Result_bind] in Hy;
      [|discriminate].
    exists xml, root. split; [reflexivity|]. split; [exact Hroot|].
    intros Hsplit Hbare. apply existsb_bare_break in Hbare.
    rewrite (xml2text_tree_no_bare_break root split_pages y Hy Hsplit) in Hbare.
    discriminate. }
  split; [|split; [exact Hpart|]].
  - destruct (decide (doc_xml ∈ namelist zipf)) as [Hin|Hnin]; [exact Hin|].
    destruct (Hpart doc_xml) as (xml & _ & Hread & _).
    + unfold part_names. rewrite !elem_of_app. right; left. left.
    + rewrite (read_absent _ _ Hnin) in Hread. discriminate.
  - intros d n -> Hn Himg.
    destruct (can_write writable d (namelist zipf)) eqn:Hw; [|discriminate].
    exact (proj1 (can_write_spec writable d (namelist zipf)) Hw n Hn Himg).
Qed.

Lemma process_returns_only_if_example :
  doc_xml ∈ namelist example_zip
  /\ (forall n, n ∈ part_names example_zip ->
        exists xml root,
          read example_zip n = Ok xml /\ example_fromstring xml = Ok root
          /\ (true = true ->
              ~ exists child, child ∈ iter root /\ tag child = W "br" /\ attrib child = []))
  /\ (forall d n, Some (lit "out") = Some d -> n ∈ namelist example_zip ->
                  (Path.splitext n).2 ∈ image_extensions ->
                  out_writable (Path.join d (Path.basename n)) = true).
Proof.
  assert (Hproc : process example_fromstring out_writable example_zip true
                    (Some (lit "out")) ∅
                  = (Ok [], <[lit "out/image1.png" := image_bytes]>
                              (<[lit "out/image1.png" := other_image_bytes]> ∅)))
    by reflexivity.
  exact (process_returns_only_if _ _ _ _ _ _ _ _ Hproc).
Defined.

(** ** Where the images are written *)

Lemma drop_take_drop {A} (l : list A) i j :
  (i <= j)%nat -> drop i l = drop i (take j l) ++ drop j l.
Proof.
  intros Hij. rewrite <- (take_drop j l) at 1. rewrite drop_app.
  f_equal. destruct (decide (j <= length l)%nat) as [Hj|Hj].
  - rewrite length_take, Nat.min_l by exact Hj.
    replace (i - j)%nat with 0%nat by lia. reflexivity.
  - rewrite (drop_ge l j) by lia. apply drop_nil.
Qed.

(** An extension that is not empty is the end of the base name, after a
    stem that is not empty. *)
Lemma splitext_basename n :
  (Path.splitext n).2 <> [] ->
  exists stem, Path.basename n = stem ++ (Path.splitext n).2 /\ stem <> [].
Proof.
  unfold Path.splitext, Path.basename, Str.slice, Str.from, Str.upto.
  destruct ((Str.rfind "/" n <? Str.rfind "." n)
            && Path.has_non_dot (drop (Z.to_nat (Str.rfind "/" n + 1))
                                   (take (Z.to_nat (Str.rfind "." n)) n))) eqn:E;
    cbn [snd]; [intros _|intros H; contradiction H; reflexivity].
  apply andb_true_iff in E as [Hlt Hdots]. apply Z.ltb_lt in Hlt.
  exists (drop (Z.to_nat (Str.rfind "/" n + 1)) (take (Z.to_nat (Str.rfind "." n)) n)).
  split.
  - apply drop_take_drop.
    assert (-1 <= Str.rfind "/" n).
    { destruct (rfind_spec "/" n) as [[-> _]|(pre & post & _ & _ & ->)]; lia. }
    lia.
  - intros Hnil. rewrite Hnil in Hdots. discriminate.
Qed.

Lemma store_changed zipf img_dir names fs p :
  (foldl (store zipf img_dir) fs names) !! p <> fs !! p ->
  exists n, n ∈ names /\ is_image n = true /\ dst_of img_dir n = p.
Proof.
  revert fs. induction names as [|n names IH]; intros fs Hne; cbn [foldl] in Hne.
  - contradiction Hne. reflexivity.
  - destruct (decide ((foldl (store zipf img_dir) (store zipf img_dir fs n) names) !! p
                      = (store zipf img_dir fs n) !! p)) as [Heq|Hneq].
    + rewrite Heq in Hne. exists n. split; [left|].
      unfold store in Hne. destruct (is_image n); [|contradiction Hne; reflexivity].
      split; [reflexivity|]. destruct (read zipf n); [|contradiction Hne; reflexivity].
      destruct (decide (dst_of img_dir n = p)) as [Hd|Hd]; [exact Hd|].
      rewrite lookup_insert_ne in Hne by exact Hd. contradiction Hne; reflexivity.
    + destruct (IH _ Hneq) as (n' & Hn' & H). exists n'. split; [right; exact Hn' | exact H].
Qed.

Lemma join_cases d base :
  ("/"%char ∉ base) ->
  (d = [] /\ Path.join d base = base)
  \/ (last d = Some "/"%char /\ Path.join d base = d ++ base)
  \/ (d <> [] /\ last d <> Some "/"%char /\ Path.join d base = d ++ lit "/" ++ base).
Proof.
  intros Hbase. unfold Path.join, Str.endswith.
  rewrite (startswith_not_elem _ _ Hbase).
  destruct (decide (d = [])) as [->|Hd]; [left; split; reflexivity|].
  rewrite (bool_decide_eq_false_2 _ Hd). cbn [orb].
  destruct (last d) as [c|] eqn:Hlast.
  - destruct (decide (c = "/"%char)) as [->|Hc].
    + rewrite bool_decide_eq_true_2 by reflexivity. right; left. split; reflexivity.
    + rewrite bool_decide_eq_false_2 by exact Hc. right; right.
      split; [exact Hd|]. split; [congruence|reflexivity].
  - right; right. split; [exact Hd|]. split; [discriminate|reflexivity].
Qed.

(** X7. Images are written into the image directory only: a path whose
    file differs after a call that returns is [os.path.join] of the
    directory and the base name of an entry, that is the directory, a
    slash unless the directory is empty or ends with one, and the base
    name; this base name holds no slash and consists of a stem that is not
    empty and one of the image extensions. An entry name with directory
    parts, [..] among them, is written under its last component, so no
    entry name makes the call write outside the directory. *)
Theorem process_writes_into_img_dir fromstring writable zipf split_pages d fs r fs' p :
  process fromstring writable zipf split_pages (Some d) fs = (Ok r, fs') ->
  fs' !! p <> fs !! p ->
  exists n base stem ext,
    n ∈ namelist zipf
    /\ base = Path.basename n
    /\ p = Path.join d base
    /\ ((d = [] /\ p = base)
        \/ (last d = Some "/"%char /\ p = d ++ base)
        \/ (d <> [] /\ last d <> Some "/"%char /\ p = d ++ lit "/" ++ base))
    /\ ("/"%char ∉ base)
    /\ base = stem ++ ext /\ stem <> [] /\ ext ∈ image_extensions.
Proof.
  intros Hproc Hne. rewrite process_assembles, extract_images_ok in Hproc.
  destruct (map_result _ _) as [parts|e]; [|discriminate].
  destruct (can_write writable d (namelist zipf)) eqn:Hw; [|discriminate].
  rewrite (opened_all _ _ _ Hw) in Hproc. injection Hproc as _ <-.
  apply store_changed in Hne as (n & Hn & Himg & Hdst).
  apply bool_decide_eq_true_1 in Himg.
  destruct (splitext_basename n) as (stem & Hbase & Hstem).
  { intros Hnil. rewrite Hnil in Himg.
    repeat (apply elem_of_cons in Himg as [Himg|Himg]; [discriminate Himg|]).
    inversion Himg. }
  exists n, (Path.basename n), stem, (Path.splitext n).2.
  split; [exact Hn|]. split; [reflexivity|]. split; [symmetry; exact Hdst|].
  split; [|split; [apply basename_spec|auto]].
  rewrite <- Hdst. unfold dst_of. apply join_cases, basename_spec.
Qed.

Lemma process_writes_into_img_dir_example :
  exists n base stem ext,
    n ∈ namelist [(doc_xml, hello_xml); (lit "../../etc/image1.png", image_bytes)]
    /\ base = Path.basename n
    /\ lit "out/image1.png" = Path.join (lit "out") base
    /\ ((lit "out" = [] /\ lit "out/image1.png" = base)
        \/ (last (lit "out") = Some "/"%char /\ lit "out/image1.png" = lit "out" ++ base)
        \/ (lit "out" <> [] /\ last (lit "out") <> Some "/"%char
            /\ lit "out/image1.png" = lit "out" ++ lit "/" ++ base))
    /\ ("/"%char ∉ base)
    /\ base = stem ++ ext /\ stem <> [] /\ ext ∈ image_extensions.
Proof.
  assert (Hproc : process example_fromstring out_writable
                    [(doc_xml, hello_xml); (lit "../../etc/image1.png", image_bytes)]
                    false (Some (lit "out")) ∅
                  = (Ok (lit "Hello"), <[lit "out/image1.png" := image_bytes]> ∅))
    by reflexivity.
  refine (process_writes_into_img_dir _ _ _ _ _ _ _ _ (lit "out/image1.png") Hproc _).
  rewrite lookup_insert_eq, lookup_empty. discriminate.
Defined.

(** ** Running the extraction again *)

Lemma store_union zipf img_dir fs n :
  store zipf img_dir fs n = store zipf img_dir ∅ n ∪ fs.
Proof.
  unfold store. destruct (is_image n); [|rewrite (left_id_L ∅ (∪)); reflexivity].
  destruct (read zipf n); [|rewrite (left_id_L ∅ (∪)); reflexivity].
  rewrite <- insert_union_l, (left_id_L ∅ (∪)). reflexivity.
Qed.

(** The files after the image loop are the files it writes laid over the
    files of before. *)
Lemma store_all_union zipf img_dir names fs :
  foldl (store zipf img_dir) fs names = foldl (store zipf img_dir) ∅ names ∪ fs.
Proof.
  revert fs. induction names as [|n names IH]; intros fs; cbn [foldl].
  - rewrite (left_id_L ∅ (∪)). reflexivity.
  - rewrite (IH (store zipf img_dir fs n)), (IH (store zipf img_dir ∅ n)).
    rewrite (store_union zipf img_dir fs n), (assoc_L (∪)). reflexivity.
Qed.


(** ** The command line *)

(** How [process_args] ends: it returns the arguments it was given,
    having printed nothing and touched no file, or it exits with status 1
    after one printed line. *)
Lemma process_args_cases makedirs args w :
  (forall a w', Cli.process_args makedirs args w = (Cli.Returned a, w') ->
     a = args /\ Cli.stdout w' = Cli.stdout w /\ Cli.files w' = Cli.files w)
  /\ (forall status w', Cli.process_args makedirs args w = (Cli.Exited status, w') ->
        status = 1 /\ exists line, Cli.stdout w' = Cli.stdout w ++ [line])
  /\ (forall exc w', Cli.process_args makedirs args w <> (Cli.Uncaught exc, w')).
Proof.
  unfold Cli.process_args.
  destruct (negb (Cli.exists_ w (Cli.docx args))).
  { split; [|split]; [intros a w' Heq|intros st w' Heq|intros exc w' Heq];
      try discriminate Heq.
    injection Heq as <- <-. split; [reflexivity|]. eexists; reflexivity. }
  destruct (Cli.img_dir args) as [d|].
  2:{ split; [|split]; [intros a w' Heq|intros st w' Heq|intros exc w' Heq];
        try discriminate Heq.
      injection Heq as <- <-. repeat split. }
  destruct (negb (Cli.exists_ w d)).
  2:{ split; [|split]; [intros a w' Heq|intros st w' Heq|intros exc w' Heq];
        try discriminate Heq.
      injection Heq as <- <-. repeat split. }
  destruct (makedirs (Cli.paths w) d) as [paths' [|]];
    (split; [|split]; [intros a w' Heq|intros st w' Heq|intros exc w' Heq]);
    try discriminate Heq; injection Heq as <- <-.
  - repeat split.
  - split; [reflexivity|]. eexists; reflexivity.
Qed.


(** ** The text of an element and of its children *)

Lemma map_result_total {A B} (f : A -> B) (g : A -> Result B) xs :
  (forall x, g x = Ok (f x)) -> map_result g xs = Ok (f <$> xs).
Proof.
  intros Hg. induction xs as [|x xs IH]; cbn [map_result fmap list_fmap]; [reflexivity|].
  rewrite Hg, IH. reflexivity.
Qed.

(** X11. In non-split mode the text of an element is what the element
    itself adds (the text of a [w:t], a tab, a newline, two newlines, or
    nothing) followed by the texts of its children in document order; no
    call raises. So a [w:tab] adds one tab at its place and a [w:t]
    without text adds nothing: a run of the text a, a tab, an empty text
    and the text b gives a, tab, b. *)
Theorem xml2text_text_of_children :
  (forall t a x y cs,
     exists parts,
       map_result (fun c => xml2text_tree c false) cs = Ok parts
       /\ xml2text_tree (Elem t a x y cs) false
          = Ok (contribution (Elem t a x y cs) ++ concat parts))
  /\ (forall a x y cs, contribution (Elem (W "tab") a x y cs) = [tab])
  /\ (forall a y cs, contribution (Elem (W "t") a None y cs) = [])
  /\ xml2text_tree
       (w_r [w_t (lit "a"); Elem (W "tab") [] None None [];
             Elem (W "t") [] None None []; w_t (lit "b")])
       false
     = Ok (lit "a" ++ tab :: lit "b").
Proof.
  split; [|repeat split].
  intros t a x y cs.
  exists ((fun c => concat (contribution <$> iter c)) <$> cs). split.
  - apply map_result_total. exact xml2text_tree_false.
  - rewrite xml2text_tree_false. cbn [iter fmap list_fmap concat]. do 2 f_equal.
    induction cs as [|c cs IH]; cbn [flat_map fmap list_fmap concat]; [reflexivity|].
    rewrite fmap_app, concat_app. f_equal. exact IH.
Qed.

(** ** Entries [process] does not read *)

Lemma read_other l1 n data l2 m :
  m <> n -> read (l1 ++ (n, data) :: l2) m = read (l1 ++ l2) m.
Proof.
  intros Hne. induction l1 as [|[n' d'] l1 IH]; cbn [app].
  - rewrite read_cons. destruct (read l2 m) as [b|e] eqn:E; [reflexivity|].
    rewrite decide_False by congruence. rewrite (read_raises _ _ _ E). reflexivity.
  - rewrite !read_cons, IH. reflexivity.
Qed.

Lemma map_result_ext {A B} (f g : A -> Result B) xs :
  (forall x, x ∈ xs -> f x = g x) -> map_result f xs = map_result g xs.
Proof.
  induction xs as [|x xs IH]; intros H; cbn [map_result]; [reflexivity|].
  rewrite (H x) by left. rewrite IH by (intros x' Hx'; apply H; right; exact Hx').
  reflexivity.
Qed.

Lemma foldl_ext_in {A B} (f g : A -> B -> A) xs a :
  (forall a x, x ∈ xs -> f a x = g a x) -> foldl f a xs = foldl g a xs.
Proof.
  revert a. induction xs as [|x xs IH]; intros a H; cbn [foldl]; [reflexivity|].
  rewrite (H a x) by left. apply IH. intros a' x' Hx'. apply H. right. exact Hx'.
Qed.

(** X12. An entry that is neither selected as a header or footer part,
    nor the main document, nor an image has no influence: with or without
    it, wherever it stands in the archive, [process] returns the same
    text, raises the same exception and leaves the same files. *)
Theorem process_ignores_other_entries
    fromstring writable l1 n data l2 split_pages img_dir fs :
  Re.match_ header_xmls n = false ->
  Re.match_ footer_xmls n = false ->
  n <> doc_xml ->
  (Path.splitext n).2 ∉ image_extensions ->
  process fromstring writable (l1 ++ (n, data) :: l2) split_pages img_dir fs
  = process fromstring writable (l1 ++ l2) split_pages img_dir fs.
Proof.
  intros Hh Hf Hdoc Himg.
  assert (Hnames : namelist (l1 ++ (n, data) :: l2) = namelist l1 ++ n :: namelist l2).
  { unfold namelist. rewrite fmap_app. reflexivity. }
  assert (Hnames' : namelist (l1 ++ l2) = namelist l1 ++ namelist l2).
  { unfold namelist. rewrite fmap_app. reflexivity. }
  assert (Hparts : part_names (l1 ++ (n, data) :: l2) = part_names (l1 ++ l2)).
  { unfold part_names. rewrite Hnames, Hnames', !List.filter_app. cbn [List.filter].
    rewrite Hh, Hf. reflexivity. }
  assert (Hne : forall m, m ∈ part_names (l1 ++ l2) -> m <> n).
  { intros m Hm ->. unfold part_names in Hm. rewrite !elem_of_app in Hm.
    destruct Hm as [Hm|[Hm|Hm]].
    - apply list_elem_of_In, filter_In in Hm as [_ Hm]. congruence.
    - apply list_elem_of_singleton in Hm. contradiction.
    - apply list_elem_of_In, filter_In in Hm as [_ Hm]. congruence. }
  assert (Hnot : is_image n = false) by (apply bool_decide_eq_false_2; exact Himg).
  rewrite !process_assembles, !extract_images_ok, Hparts.
  rewrite (map_result_ext (part_text fromstring (l1 ++ (n, data) :: l2) split_pages)
             (part_text fromstring (l1 ++ l2) split_pages)).
  2:{ intros m Hm. unfold part_text. rewrite read_other by (apply Hne; exact Hm).
      reflexivity. }
  destruct (map_result _ _) as [parts|e]; [|reflexivity].
  destruct img_dir as [d|]; [|reflexivity].
  assert (Hw : can_write writable d (namelist (l1 ++ (n, data) :: l2))
               = can_write writable d (namelist (l1 ++ l2))).
  { unfold can_write. rewrite Hnames, Hnames', !forallb_app. cbn [forallb].
    rewrite Hnot. reflexivity. }
  assert (Hstore : forall fs0 m, store (l1 ++ (n, data) :: l2) d fs0 m
                                 = store (l1 ++ l2) d fs0 m).
  { intros fs0 m. unfold store. destruct (decide (m = n)) as [->|Hm].
    - rewrite Hnot. reflexivity.
    - rewrite read_other by exact Hm. reflexivity. }
  assert (Hfs : foldl (store (l1 ++ (n, data) :: l2) d) fs
                  (opened writable d (namelist (l1 ++ (n, data) :: l2)))
                = foldl (store (l1 ++ l2) d) fs
                    (opened writable d (namelist (l1 ++ l2)))).
  { rewrite Hnames, Hnames', !opened_app.
    destruct (can_write writable d (namelist l1)).
    - cbn [opened]. rewrite Hnot. cbn [negb orb]. rewrite !foldl_app. cbn [foldl].
      unfold store at 2. rewrite Hnot.
      rewrite (foldl_ext_in _ (store (l1 ++ l2) d) (namelist l1))
        by (intros; apply Hstore).
      apply foldl_ext_in. intros; apply Hstore.
    - apply foldl_ext_in. intros; apply Hstore. }
  rewrite Hw, Hfs. reflexivity.
Qed.

Lemma process_ignores_other_entries_example :
  process example_fromstring all_writable
    [(lit "word/styles.xml", line_break_xml); (doc_xml, hello_xml)] true None ∅
  = process example_fromstring all_writable [(doc_xml, hello_xml)] true None ∅.
Proof.
  refine (process_ignores_other_entries example_fromstring all_writable []
            (lit "word/styles.xml")
            line_break_xml [(doc_xml, hello_xml)] true None ∅ eq_refl eq_refl _ _).
  - discriminate.
  - vm_compute. intros H.
    repeat (apply elem_of_cons in H as [H|H]; [discriminate H|]). inversion H.
Defined.
